(** * akupila/recorder: the record/replay transport, embedded in Rocq

    A shallow embedding of [recorder.go]: the entry model, the once-guarded
    load of the backing file, [RoundTrip] with its four modes, [Lookup], the
    filters and the [OncePerCall] selector, followed by the properties of
    the specification that concern them. *)

From Stdlib Require Import ZArith String Ascii List Bool Lia.
From stdpp Require Import base option list gmap strings pretty.

Local Open Scope Z_scope.
Local Open Scope string_scope.

(** ** Entry model *)

(** [type Request struct]: headers are a [map[string]string]. A nil map and
    an empty one read alike and [delete] treats them alike, so both are the
    empty [gmap]. *)
Record Request := mkRequest {
  Method : string;
  URL : string;
  Headers : gmap string string;
  Body : string
}.

(** [type Response struct]. *)
Record Response := mkResponse {
  StatusCode : Z;
  RespHeaders : gmap string string;
  RespBody : string
}.

(** [type Entry struct]: both fields are pointers, [None] is the nil
    pointer. An entry stored in the recorder's list is read by value: the
    source never writes through the pointers of a stored entry. *)
Record Entry := mkEntry {
  EntryRequest : option Request;
  EntryResponse : option Response
}.

(** [Entry{}], the zero value. *)
Definition zeroEntry : Entry := mkEntry None None.

(** ** The parts of net/http and io the recorder touches *)

(** An [io.ReadCloser]: what reading it to the end yields and what [Close]
    answers. *)
Record ReadCloser := mkReadCloser {
  content : string;
  read_err : option string;
  close_err : option string
}.

(** [ioutil.NopCloser(strings.NewReader(s))]. *)
Definition NopCloser (s : string) : ReadCloser := mkReadCloser s None None.

(** [*http.Request]: [ReqURL] is [req.URL.String()], [ReqBody = None] is a
    nil body. *)
Record HttpRequest := mkHttpRequest {
  ReqMethod : string;
  ReqURL : string;
  ReqHeader : gmap string (list string);
  ReqBody : option ReadCloser
}.

(** [*http.Response]. *)
Record HttpResponse := mkHttpResponse {
  RespStatusCode : Z;
  Header : gmap string (list string);
  HttpBody : ReadCloser;
  ContentLength : Z
}.

(** Values of Go's [error] that [RoundTrip] returns: [NoRequestError] is the
    recorder's own, every other error comes from a collaborator and is
    passed on untouched. *)
Inductive error :=
| NoRequestError (req : HttpRequest)
| ForeignError (msg : string).

(** What a Go panic carries. *)
Inductive panic :=
| PanicMsg (msg : string)
| NilDereference
| IndexOutOfRange.

(** A call either returns or panics. *)
Inductive Result (R : Type) :=
| Returned (v : R)
| Panicked (p : panic).
Arguments Returned {R} v.
Arguments Panicked {R} p.

(** [http.RoundTripper]: the answer may depend on the requests sent before
    (given oldest first). *)
Definition RoundTripper := list HttpRequest -> HttpRequest -> error + HttpResponse.

(** ** Mode *)

Definition Mode := Z.
Definition Auto : Mode := 0.
Definition ReplayOnly : Mode := 1.
(** [Record] in the source; the name is a keyword here. *)
Definition RecordAll : Mode := 2.
Definition Passthrough : Mode := 3.

(** ** Collaborators outside the repository

    The Go standard library and yaml.v2 functions the recorder calls. *)
Record Externals := mkExternals {
  (** [strings.EqualFold] *)
  EqualFold : string -> string -> bool;
  (** [textproto.CanonicalMIMEHeaderKey], applied by [http.Header.Set] *)
  CanonicalMIMEHeaderKey : string -> string;
  (** the order in which a [range] loop visits a map (Go leaves it open) *)
  range_order : gmap string string -> list (string * string);
  (** [yaml.Marshal] *)
  Marshal : Entry -> string + string;
  (** [yaml.Unmarshal] into a zero [Entry]: the error text or the entry *)
  Unmarshal : string -> string + Entry;
  (** [http.DefaultTransport] *)
  DefaultTransport : RoundTripper;
  (** [path.Dir] *)
  path_Dir : string -> string;
  (** [start.UTC().Round(time.Second)] and [dur.Round(time.Millisecond)] as
      printed, for the n-th live call *)
  clock : nat -> string * string
}.

(** ** Strings and bytes *)

(** [strings.HasSuffix]. *)
Definition HasSuffix (s suffix : string) : bool :=
  let n := String.length s in
  let m := String.length suffix in
  (m <=? n)%nat && String.eqb (substring (n - m) m s) suffix.

(** [bytes.Split] for a non-empty separator: [skip] counts the bytes of a
    separator just matched that are still to be dropped, [cur] is the
    current chunk, last byte first. *)
Fixpoint Split_from (sep : string) (skip : nat) (cur : string) (s : string) : list string :=
  match s with
  | EmptyString => [String.rev cur]
  | String c s' =>
      match skip with
      | S k => Split_from sep k cur s'
      | O =>
          if String.prefix sep s
          then String.rev cur :: Split_from sep (Nat.pred (String.length sep)) EmptyString s'
          else Split_from sep O (String c cur) s'
      end
  end.

Definition Split (s sep : string) : list string := Split_from sep O EmptyString s.

(** The document separator [loadFromDisk] splits on. *)
Definition separator : string := String "010" ("---" ++ String "010" EmptyString).

(** ** Filters

    [type Filter func(entry *Entry)]. While the filters run, [RoundTrip]
    still holds its own pointers [out] and [in] to the two records it
    allocated, and the entry's fields start out equal to them. A filter may
    write through a field (which changes the record [out] or [in] points
    to) or assign a field (after which [out] or [in] no longer names the
    entry's record). [ref] keeps the two apart. *)
Inductive ref (A : Type) :=
| ref_nil
| ref_own
| ref_other (v : A).
Arguments ref_nil {A}.
Arguments ref_own {A}.
Arguments ref_other {A} v.

(** The store a filter works on: the entry [e] and the records behind
    [out] and [in]. [ref_own] in [e_Request] is the pointer [out], in
    [e_Response] the pointer [in]; [ref_other v] is a pointer to some other
    record holding [v]. *)
Record Frame := mkFrame {
  e_Request : ref Request;
  e_Response : ref Response;
  out_rec : Request;
  in_rec : Response
}.

Definition Filter := Frame -> Result Frame.

(** Reading through a field of [e]. *)
Definition deref {A : Type} (own : A) (p : ref A) : option A :=
  match p with
  | ref_nil => None
  | ref_own => Some own
  | ref_other v => Some v
  end.

(** The entry as [append(r.entries, e)] stores it. *)
Definition entry_of (fr : Frame) : Entry :=
  mkEntry (deref (out_rec fr) (e_Request fr)) (deref (in_rec fr) (e_Response fr)).

(** [e.Request.<field> = ...]: a write through [e.Request]. *)
Definition update_Request (f : Request -> Request) : Filter := fun fr =>
  match e_Request fr with
  | ref_nil => Panicked NilDereference
  | ref_own => Returned (mkFrame ref_own (e_Response fr) (f (out_rec fr)) (in_rec fr))
  | ref_other v => Returned (mkFrame (ref_other (f v)) (e_Response fr) (out_rec fr) (in_rec fr))
  end.

(** [e.Response.<field> = ...]: a write through [e.Response]. *)
Definition update_Response (f : Response -> Response) : Filter := fun fr =>
  match e_Response fr with
  | ref_nil => Panicked NilDereference
  | ref_own => Returned (mkFrame (e_Request fr) ref_own (out_rec fr) (f (in_rec fr)))
  | ref_other v => Returned (mkFrame (e_Request fr) (ref_other (f v)) (out_rec fr) (in_rec fr))
  end.

(** [e.Response = p] for a pointer [p] of the filter's own ([None] is
    nil). *)
Definition assign_Response (p : option Response) : Filter := fun fr =>
  Returned (mkFrame (e_Request fr)
              (match p with None => ref_nil | Some v => ref_other v end)
              (out_rec fr) (in_rec fr)).

(** [e.Request = p]. *)
Definition assign_Request (p : option Request) : Filter := fun fr =>
  Returned (mkFrame (match p with None => ref_nil | Some v => ref_other v end)
              (e_Response fr) (out_rec fr) (in_rec fr)).

(** [RemoveRequestHeader]: [delete(e.Request.Headers, name)]. *)
Definition RemoveRequestHeader (name : string) : Filter :=
  update_Request (fun rq =>
    mkRequest (Method rq) (URL rq) (delete name (Headers rq)) (Body rq)).

(** [RemoveResponseHeader]: [delete(e.Response.Headers, name)]. *)
Definition RemoveResponseHeader (name : string) : Filter :=
  update_Response (fun rs =>
    mkResponse (StatusCode rs) (delete name (RespHeaders rs)) (RespBody rs)).

(** [for _, apply := range r.Filters { apply(&e) }]. *)
Fixpoint apply_filters (fs : list Filter) (fr : Frame) : Result Frame :=
  match fs with
  | [] => Returned fr
  | apply :: rest =>
      match apply fr with
      | Returned fr' => apply_filters rest fr'
      | Panicked p => Panicked p
      end
  end.

(** ** Headers *)

(** [flattenHeader]: [out[k] = vv[0]] for every key; indexing an empty
    slice panics. *)
Definition flattenHeader (h : gmap string (list string)) : Result (gmap string string) :=
  if decide (map_Forall (fun _ vv => vv <> []) h)
  then Returned (omap head h)
  else Panicked IndexOutOfRange.

(** [for k, vv := range req.Header { out.Headers[k] = vv[0] }], the loop
    [RoundTrip] runs once more over the request header. *)
Definition copy_first_values (h : gmap string (list string)) (out : gmap string string)
  : Result (gmap string string) :=
  if decide (map_Forall (fun _ vv => vv <> []) h)
  then Returned (omap head h ∪ out)
  else Panicked IndexOutOfRange.

(** How a step inside [RoundTrip] ends: it goes on to the next statement,
    leaves by [return], or panics. *)
Inductive flow (A : Type) :=
| Next (a : A)
| Return (v : error + HttpResponse)
| Panic (p : panic).
Arguments Next {A} a.
Arguments Return {A} v.
Arguments Panic {A} p.

Section WithExternals.

Variable X : Externals.

(** [expandHeader]: [out.Set(k, v)] for every pair, in the order the range
    loop visits them; [Set] stores under the canonical key. *)
Definition expandHeader (h : gmap string string) : gmap string (list string) :=
  fold_left (fun out kv => <[CanonicalMIMEHeaderKey X (fst kv) := [snd kv]]> out)
            (range_order X h) ∅.

(** The response [RoundTrip] builds from a [Response] record. *)
Definition make_response (rs : Response) : HttpResponse :=
  mkHttpResponse (StatusCode rs) (expandHeader (RespHeaders rs))
    (NopCloser (RespBody rs)) (Z.of_nat (String.length (RespBody rs))).

(** The test both [Lookup] and [OncePerCall.Select] apply to a request
    record. *)
Definition key_match (rq : Request) (method url : string) : bool :=
  EqualFold X (Method rq) method && EqualFold X (URL rq) url.

(** ** The file system and the network *)

Inductive fs_op :=
| OpReadFile (name : string)
| OpMkdirAll (dir : string)
| OpOpenFile (name : string) (truncate : bool)
| OpWrite (name : string)
| OpClose (name : string).

(** The world outside the recorder: the files by path, the requests the
    transports were sent (oldest first), and which file-system calls fail,
    with what error. *)
Record World := mkWorld {
  files : gmap string string;
  net : list HttpRequest;
  fault : fs_op -> option string
}.

(** ** Selector *)

(** [type Selector interface]: [S] is the state of the value behind the
    interface; [Select] reads the entries and may update that state. *)
Class Selector (S : Type) :=
  Select : S -> list Entry -> HttpRequest -> Result (Entry * bool) * S.

(** [type OncePerCall struct]: [used] is nil until the first call. The
    mutex has no part in a sequential run. *)
Record OncePerCall := mkOncePerCall { used : option (gmap nat bool) }.

(** The loop of [OncePerCall.Select], from position [i] on. *)
Fixpoint OncePerCall_loop (u : gmap nat bool) (i : nat) (es : list Entry)
    (req : HttpRequest) : Result (Entry * bool) * gmap nat bool :=
  match es with
  | [] => (Returned (zeroEntry, false), u)
  | e :: rest =>
      match EntryRequest e with
      | None => (Panicked NilDereference, u)
      | Some rq =>
          if negb (EqualFold X (Method rq) (ReqMethod req)) then
            OncePerCall_loop u (S i) rest req
          else if negb (EqualFold X (URL rq) (ReqURL req)) then
            OncePerCall_loop u (S i) rest req
          else if negb (default false (u !! i)) then
            (Returned (e, true), <[i := true]> u)
          else OncePerCall_loop u (S i) rest req
      end
  end.

Definition OncePerCall_Select (s : OncePerCall) (es : list Entry) (req : HttpRequest)
  : Result (Entry * bool) * OncePerCall :=
  let u := match used s with None => ∅ | Some u => u end in
  let '(res, u') := OncePerCall_loop u 0 es req in
  (res, mkOncePerCall (Some u')).

#[export] Instance OncePerCall_Selector : Selector OncePerCall := OncePerCall_Select.

(** A selector given as a function, as the tests' [SelectorFunc] adapter
    does; it keeps no state. *)
Definition SelectorFunc := list Entry -> HttpRequest -> Entry * bool.

#[export] Instance SelectorFunc_Selector : Selector SelectorFunc :=
  fun f es req => (Returned (f es req), f).

(** ** Recorder *)

Section WithSelector.

Context {Sel : Type} `{!Selector Sel}.

(** [type Recorder struct]. [Selector = None] is the nil interface, [once]
    is whether [sync.Once] has fired. *)
Record Recorder := mkRecorder {
  Filename : string;
  RMode : Mode;
  Filters : list Filter;
  Transport : option RoundTripper;
  RSelector : option Sel;
  once : bool;
  index : Z;
  entries : list Entry
}.

(** [New]. *)
Definition New (filename : string) (filters : list Filter) : Recorder :=
  mkRecorder filename Auto filters (Some (DefaultTransport X)) None false 0 [].

Definition set_Filename (v : string) (r : Recorder) : Recorder :=
  mkRecorder v (RMode r) (Filters r) (Transport r) (RSelector r) (once r) (index r) (entries r).
Definition set_Mode (v : Mode) (r : Recorder) : Recorder :=
  mkRecorder (Filename r) v (Filters r) (Transport r) (RSelector r) (once r) (index r) (entries r).
Definition set_Transport (v : option RoundTripper) (r : Recorder) : Recorder :=
  mkRecorder (Filename r) (RMode r) (Filters r) v (RSelector r) (once r) (index r) (entries r).
Definition set_Selector (v : option Sel) (r : Recorder) : Recorder :=
  mkRecorder (Filename r) (RMode r) (Filters r) (Transport r) v (once r) (index r) (entries r).
Definition set_once (v : bool) (r : Recorder) : Recorder :=
  mkRecorder (Filename r) (RMode r) (Filters r) (Transport r) (RSelector r) v (index r) (entries r).
Definition set_index (v : Z) (r : Recorder) : Recorder :=
  mkRecorder (Filename r) (RMode r) (Filters r) (Transport r) (RSelector r) (once r) v (entries r).
Definition set_entries (v : list Entry) (r : Recorder) : Recorder :=
  mkRecorder (Filename r) (RMode r) (Filters r) (Transport r) (RSelector r) (once r) (index r) v.

(** The loop of [loadFromDisk] over the chunks, from chunk [i] on: a chunk
    that does not unmarshal panics on the spot, with what the chunks before
    it appended still in [r.entries]. *)
Fixpoint load_chunks (i : nat) (values : list string) (r : Recorder)
  : option panic * Recorder :=
  match values with
  | [] => (None, r)
  | val :: rest =>
      match Unmarshal X val with
      | inl err =>
          (Some (PanicMsg ("unmarshal session " ++ pretty i ++ " from "
                           ++ Filename r ++ ": " ++ err)), r)
      | inr e => load_chunks (S i) rest (set_entries (entries r ++ [e]) r)
      end
  end.

(** [ioutil.ReadFile]. *)
Definition ReadFile (w : World) (name : string) : option string :=
  match fault w (OpReadFile name) with
  | Some _ => None
  | None => files w !! name
  end.

(** [loadFromDisk]. *)
Definition loadFromDisk (w : World) (r : Recorder) : option panic * Recorder :=
  if (RMode r =? Passthrough)%Z then (None, r)
  else
    let r1 := if HasSuffix (Filename r) ".yml" then r
              else set_Filename (Filename r ++ ".yml") r in
    match ReadFile w (Filename r1) with
    | Some existing => load_chunks 0 (Split existing separator) r1
    | None => (None, r1)
    end.

(** [r.once.Do(r.loadFromDisk)]: when the function panics, [sync.Once]
    still counts it as done. *)
Definition once_Do_loadFromDisk (w : World) (r : Recorder) : option panic * Recorder :=
  if once r then (None, r)
  else loadFromDisk w (set_once true r).

(** The loop of [Lookup]: reading [e.Request.Method] through a nil
    [e.Request] panics. *)
Fixpoint Lookup_loop (es : list Entry) (method url : string) : Result (Entry * bool) :=
  match es with
  | [] => Returned (zeroEntry, false)
  | e :: rest =>
      match EntryRequest e with
      | None => Panicked NilDereference
      | Some rq =>
          if key_match rq method url then Returned (e, true)
          else Lookup_loop rest method url
      end
  end.

(** [Lookup]. *)
Definition Lookup (w : World) (r : Recorder) (method url : string)
  : Result (Entry * bool) * Recorder :=
  match once_Do_loadFromDisk w r with
  | (Some p, r') => (Panicked p, r')
  | (None, r') => (Lookup_loop (entries r') method url, r')
  end.

(** ** RoundTrip

    The body of [RoundTrip] threads the recorder and the world through its
    steps; [M] is the type of such a step. *)
Definition M (A : Type) : Type := Recorder * World -> flow A * (Recorder * World).

#[local] Instance M_ret : MRet M := fun A a st => (Next a, st).
#[local] Instance M_bind : MBind M := fun A B f m st =>
  match m st with
  | (Next a, st') => f a st'
  | (Return v, st') => (Return v, st')
  | (Panic p, st') => (Panic p, st')
  end.

Definition return_ {A : Type} (v : error + HttpResponse) : M A := fun st => (Return v, st).
Definition throw {A : Type} (p : panic) : M A := fun st => (Panic p, st).
Definition get_r : M Recorder := fun st => (Next (fst st), st).
Definition get_w : M World := fun st => (Next (snd st), st).
Definition modify_r (f : Recorder -> Recorder) : M unit := fun st => (Next tt, (f (fst st), snd st)).
Definition modify_w (f : World -> World) : M unit := fun st => (Next tt, (fst st, f (snd st))).
Definition skip : M unit := mret tt.

(** A call that may panic. *)
Definition call {A : Type} (x : Result A) : M A :=
  match x with
  | Returned a => mret a
  | Panicked p => throw p
  end.

(** [if err != nil { return nil, err }]. *)
Definition check (err : option string) : M unit :=
  match err with
  | Some msg => return_ (inl (ForeignError msg))
  | None => skip
  end.

(** [r.once.Do(r.loadFromDisk)] inside [RoundTrip]. *)
Definition do_once : M unit := fun st =>
  match once_Do_loadFromDisk (snd st) (fst st) with
  | (Some p, r') => (Panic p, (r', snd st))
  | (None, r') => (Next tt, (r', snd st))
  end.

(** [r.Selector.Select(r.entries, req)]. *)
Definition call_Select (s : Sel) (req : HttpRequest) : M (Entry * bool) := fun st =>
  let '(res, s') := Select s (entries (fst st)) req in
  let st' := (set_Selector (Some s') (fst st), snd st) in
  match res with
  | Returned v => (Next v, st')
  | Panicked p => (Panic p, st')
  end.

(** [r.Lookup(req.Method, req.URL.String())]. *)
Definition call_Lookup (method url : string) : M (Entry * bool) := fun st =>
  match Lookup (snd st) (fst st) method url with
  | (Returned v, r') => (Next v, (r', snd st))
  | (Panicked p, r') => (Panic p, (r', snd st))
  end.

(** The [Auto]/[ReplayOnly] block: answer from a stored entry, or refuse
    in [ReplayOnly], or fall through. *)
Definition replay (req : HttpRequest) : M unit :=
  r ← get_r;
  if (RMode r =? Auto)%Z || (RMode r =? ReplayOnly)%Z then
    '(e, ok) ← match RSelector r with
               | Some s => call_Select s req
               | None => call_Lookup (ReqMethod req) (ReqURL req)
               end;
    if ok : bool then
      match EntryResponse e with
      | None => throw NilDereference
      | Some resp => return_ (inr (make_response resp))
      end
    else
      r ← get_r;
      if (RMode r =? ReplayOnly)%Z then return_ (inl (NoRequestError req)) else skip
  else skip.

(** [if r.Transport == nil { r.Transport = http.DefaultTransport }]; the
    transport to call is returned. *)
Definition default_transport : M RoundTripper :=
  r ← get_r;
  match Transport r with
  | Some t => mret t
  | None =>
      modify_r (set_Transport (Some (DefaultTransport X)));;
      mret (DefaultTransport X)
  end.

(** "Construct request": the body is read to the end and replaced by a
    copy in memory; the outgoing request and the record [out] come back. *)
Definition construct_request (req : HttpRequest) : M (HttpRequest * Request) :=
  bodyOut ← match ReqBody req with
            | None => mret ""
            | Some b => check (read_err b);; mret (content b)
            end;
  let req' := mkHttpRequest (ReqMethod req) (ReqURL req) (ReqHeader req)
                (Some (NopCloser bodyOut)) in
  hs ← call (flattenHeader (ReqHeader req));
  hs' ← call (copy_first_values (ReqHeader req) hs);
  mret (req', mkRequest (ReqMethod req) (ReqURL req) hs' bodyOut).

(** "Send request": the call goes on the wire whether or not it succeeds. *)
Definition send_request (t : RoundTripper) (req : HttpRequest) : M HttpResponse :=
  w ← get_w;
  modify_w (fun w => mkWorld (files w) (net w ++ [req]) (fault w));;
  match t (net w) req with
  | inl err => return_ (inl err)
  | inr resp => mret resp
  end.

(** "Construct response": the record [in]. *)
Definition construct_response (resp : HttpResponse) : M Response :=
  hs ← call (flattenHeader (Header resp));
  check (read_err (HttpBody resp));;
  check (close_err (HttpBody resp));;
  mret (mkResponse (RespStatusCode resp) hs (content (HttpBody resp))).

(** Go's [int], taken as 64 bits wide. *)
Definition int_wrap (z : Z) : Z := ((z + 2 ^ 63) mod 2 ^ 64 - 2 ^ 63)%Z.

Definition append_file (name text : string) (w : World) : World :=
  mkWorld (<[name := default "" (files w !! name) ++ text]> (files w)) (net w) (fault w).

(** [os.OpenFile]: with [O_CREATE|O_TRUNC] the file is created or emptied;
    with [O_APPEND] alone it has to exist. *)
Definition OpenFile (name : string) (truncate : bool) : M unit :=
  w ← get_w;
  check (fault w (OpOpenFile name truncate));;
  if truncate then modify_w (fun w => mkWorld (<[name := ""]> (files w)) (net w) (fault w))
  else match files w !! name with
       | Some _ => skip
       | None => return_ (inl (ForeignError "no such file or directory"))
       end.

Definition newline : string := String "010" EmptyString.

(** "Save to disk": [n] is the number of the live call, for the clock. *)
Definition save_to_disk (n : nat) (e : Entry) : M unit :=
  r ← get_r;
  w ← get_w;
  check (fault w (OpMkdirAll (path_Dir X (Filename r))));;
  OpenFile (Filename r) (index r =? 0)%Z;;
  (if (0 <? index r)%Z
   then modify_w (append_file (Filename r) (newline ++ "---" ++ newline ++ newline))
   else skip);;
  modify_w (append_file (Filename r) ("# request " ++ pretty (index r) ++ newline));;
  modify_w (append_file (Filename r) ("# timestamp " ++ fst (clock X n) ++ newline));;
  modify_w (append_file (Filename r) ("# roundtrip " ++ snd (clock X n) ++ newline));;
  modify_r (fun r => set_index (int_wrap (index r + 1)) r);;
  match Marshal X e with
  | inl err => return_ (inl (ForeignError err))
  | inr b =>
      check (fault w (OpWrite (Filename r)));;
      modify_w (append_file (Filename r) b);;
      check (fault w (OpClose (Filename r)))
  end.

(** Everything after the replay block: the live call, the filters, the
    append and the write. *)
Definition live (req : HttpRequest) : M HttpResponse :=
  t ← default_transport;
  '(req', out) ← construct_request req;
  w ← get_w;
  let n := length (net w) in
  resp ← send_request t req';
  in_ ← construct_response resp;
  r ← get_r;
  fr ← call (apply_filters (Filters r) (mkFrame ref_own ref_own out in_));
  let resp := make_response (in_rec fr) in
  modify_r (fun r => set_entries (entries r ++ [entry_of fr]) r);;
  (if (RMode r =? Auto)%Z || (RMode r =? RecordAll)%Z
   then save_to_disk n (entry_of fr)
   else skip);;
  mret resp.

Definition RoundTrip_body (req : HttpRequest) : M HttpResponse :=
  r ← get_r;
  (if (Passthrough <? RMode r)%Z then throw (PanicMsg "Unsupported mode") else skip);;
  do_once;;
  replay req;;
  live req.

(** [RoundTrip]: what the call returns or panics with, and the recorder and
    the world it leaves. *)
Definition RoundTrip (w : World) (r : Recorder) (req : HttpRequest)
  : Result (error + HttpResponse) * (Recorder * World) :=
  match RoundTrip_body req (r, w) with
  | (Next resp, st) => (Returned (inr resp), st)
  | (Return v, st) => (Returned v, st)
  | (Panic p, st) => (Panicked p, st)
  end.

End WithSelector.

End WithExternals.

Arguments Recorder Sel : clear implicits.
#[export] Existing Instance M_ret.
#[export] Existing Instance M_bind.

Arguments RoundTrip X {Sel _} w r req.
Arguments Lookup X {Sel} w r method url.
Arguments once_Do_loadFromDisk X {Sel} w r.
Arguments loadFromDisk X {Sel} w r.
Arguments load_chunks X {Sel} i values r.
Arguments New X {Sel} filename filters.

(** * Vocabulary of the specification

    The notions the properties below are stated with. *)

Section Vocabulary.

Variable X : Externals.
Context {Sel : Type} `{!Selector Sel}.

Implicit Types (r : Recorder Sel) (w : World) (req : HttpRequest) (e : Entry).

(** [r.Selector.Select(r.entries, req)] when a selector is set, the default
    rule of [Lookup] otherwise. *)
Definition select_for r req : Result (Entry * bool) * Recorder Sel :=
  match RSelector r with
  | Some s =>
      let '(res, s') := Select s (entries r) req in
      (res, set_Selector (Some s') r)
  | None => (Lookup_loop X (entries r) (ReqMethod req) (ReqURL req), r)
  end.

(** What the replay block does in terms of [select_for]. *)
Definition replay_outcome w r req : flow unit * (Recorder Sel * World) :=
  if (RMode r =? Auto)%Z || (RMode r =? ReplayOnly)%Z then
    match select_for r req with
    | (Panicked p, r2) => (Panic p, (r2, w))
    | (Returned (e, true), r2) =>
        match EntryResponse e with
        | None => (Panic NilDereference, (r2, w))
        | Some rs => (Return (inr (make_response X rs)), (r2, w))
        end
    | (Returned (e, false), r2) =>
        if (RMode r =? ReplayOnly)%Z
        then (Return (inl (NoRequestError req)), (r2, w))
        else (Next tt, (r2, w))
    end
  else (Next tt, (r, w)).

(** An entry with a request record that does not have the key. *)
Definition other_key (method url : string) e : Prop :=
  exists rq, EntryRequest e = Some rq /\ key_match X rq method url = false.

(** The step does not leave [RoundTrip] with a response: when it returns,
    it returns an error. *)
Definition no_response {A : Type} (o : flow A) : Prop :=
  forall v, o = Return v -> exists err, v = inl err.

(** What the live path leaves alone in the recorder: everything but the
    transport, the write index and the entries. *)
Definition same_config r r' : Prop :=
  Filename r' = Filename r /\ RMode r' = RMode r /\ Filters r' = Filters r /\
  RSelector r' = RSelector r /\ once r' = once r.

(** Both records of the entry are there. *)
Definition complete e : Prop :=
  is_Some (EntryRequest e) /\ is_Some (EntryResponse e).

(** The filter leaves an entry that had both records with both records. *)
Definition keeps_records (f : Filter) : Prop :=
  forall fr fr', f fr = Returned fr' -> complete (entry_of fr) -> complete (entry_of fr').

(** The filter leaves a request record with the method and the URL it
    found. *)
Definition keeps_key (f : Filter) : Prop :=
  forall fr fr' rq, f fr = Returned fr' ->
    EntryRequest (entry_of fr) = Some rq ->
    exists rq', EntryRequest (entry_of fr') = Some rq' /\
                Method rq' = Method rq /\ URL rq' = URL rq.

(** The filter leaves [e.Response] pointing where [in] points, if it did:
    it writes through the field and does not assign it. *)
Definition writes_through (f : Filter) : Prop :=
  forall fr fr', f fr = Returned fr' -> e_Response fr = ref_own -> e_Response fr' = ref_own.

(** A client issuing the requests one after the other. *)
Fixpoint RoundTrips w r (reqs : list HttpRequest)
  : list (Result (error + HttpResponse)) * (Recorder Sel * World) :=
  match reqs with
  | [] => ([], (r, w))
  | req :: rest =>
      let '(res, (r', w')) := RoundTrip X w r req in
      let '(more, st) := RoundTrips w' r' rest in
      (res :: more, st)
  end.


(** [m] is the first entry of [es] whose request has the key, and every
    entry before it has a request. *)
Definition first_with_key (method url : string) (es : list Entry) (m : Entry) : Prop :=
  exists pre post rq,
    es = (pre ++ m :: post)%list /\ Forall (other_key method url) pre /\
    EntryRequest m = Some rq /\ key_match X rq method url = true.

(** The name [loadFromDisk] reads: the file name, with [.yml] added when it
    does not end in it. *)
Definition backing_file r : string :=
  if HasSuffix (Filename r) ".yml" then Filename r else Filename r ++ ".yml".

(** For the chunks of the file the load reads, when it reads it, the
    deserializer yields entries with both records. *)
Definition chunks_complete w r : Prop :=
  once r = false -> RMode r <> Passthrough ->
  forall existing, ReadFile w (backing_file r) = Some existing ->
  Forall (fun chunk => forall e, Unmarshal X chunk = inr e -> complete e)
         (Split existing separator).

(** The entry has a request record with the key. *)
Definition has_key (method url : string) e : bool :=
  match EntryRequest e with
  | Some rq => key_match X rq method url
  | None => false
  end.

(** The request asks for the key: its method and URL fold to the key's. *)
Definition for_key (method url : string) req : bool :=
  EqualFold X (ReqMethod req) method && EqualFold X (ReqURL req) url.

(** No entry of [es] with the key answers to the request. *)
Definition foreign_to (method url : string) (es : list Entry) req : Prop :=
  Forall (fun e => has_key method url e = true ->
                   has_key (ReqMethod req) (ReqURL req) e = false) es.

(** [Select] on each request in turn, against the same entries. *)
Fixpoint select_each (s : OncePerCall) (es : list Entry) (reqs : list HttpRequest)
  : list (Result (Entry * bool)) * OncePerCall :=
  match reqs with
  | [] => ([], s)
  | req :: rest =>
      let '(a, s') := OncePerCall_Select X s es req in
      let '(more, s'') := select_each s' es rest in
      (a :: more, s'')
  end.

(** The answers to the requests that ask for the key. *)
Fixpoint answers_for {A : Type} (method url : string) (reqs : list HttpRequest)
    (answers : list A) : list A :=
  match reqs, answers with
  | req :: reqs', a :: answers' =>
      if for_key method url req then a :: answers_for method url reqs' answers'
      else answers_for method url reqs' answers'
  | _, _ => []
  end.

(** What [c] calls for a key should get when [l] are the entries still to
    be handed out: those entries in order, then refusals. *)
Definition handed_out (c : nat) (l : list Entry) : list (Result (Entry * bool)) :=
  (map (fun e => Returned (e, true)) (take c l)
   ++ replicate (c - length l) (Returned (zeroEntry, false)))%list.

(** The positions from [i] on that have the key and are not marked used,
    with their entries. *)
Fixpoint pending (u : gmap nat bool) (method url : string) (i : nat) (es : list Entry)
  : list (nat * Entry) :=
  match es with
  | [] => []
  | e :: rest =>
      if has_key method url e && negb (default false (u !! i))
      then (i, e) :: pending u method url (S i) rest
      else pending u method url (S i) rest
  end.

Definition used_map (s : OncePerCall) : gmap nat bool :=
  match used s with None => ∅ | Some u => u end.

(** ** The live exchange *)

(** Reading the request body to the end yields [b] ([""] for a nil
    body). *)
Definition reads_as (body : option ReadCloser) (b : string) : Prop :=
  match body with
  | None => b = ""
  | Some rc => read_err rc = None /\ content rc = b
  end.

(** No key of the header has an empty list of values. *)
Definition no_empty_value (h : gmap string (list string)) : Prop :=
  map_Forall (fun _ vv => vv <> []) h.

(** The first value under every key. *)
Definition first_values (h : gmap string (list string)) : gmap string string :=
  omap head h.

(** The request [RoundTrip] hands to the transport: the caller's, with the
    body replaced by the copy in memory. *)
Definition outgoing req (b : string) : HttpRequest :=
  mkHttpRequest (ReqMethod req) (ReqURL req) (ReqHeader req) (Some (NopCloser b)).

(** The records [out] and [in] as built before the filters run. *)
Definition recorded_request req (b : string) : Request :=
  mkRequest (ReqMethod req) (ReqURL req) (first_values (ReqHeader req)) b.

Definition recorded_response (resp : HttpResponse) : Response :=
  mkResponse (RespStatusCode resp) (first_values (Header resp)) (content (HttpBody resp)).

(** The transport a live call uses, and the recorder once it is set. *)
Definition transport_of r : RoundTripper :=
  default (DefaultTransport X) (Transport r).

Definition with_transport r : Recorder Sel :=
  match Transport r with
  | Some _ => r
  | None => set_Transport (Some (DefaultTransport X)) r
  end.

(** The exchange goes through: the body reads as [b], the headers have
    first values, and the transport answers [resp], whose header has first
    values and whose body reads and closes. *)
Definition answered r w req (b : string) (resp : HttpResponse) : Prop :=
  reads_as (ReqBody req) b /\ no_empty_value (ReqHeader req) /\
  transport_of r (net w) (outgoing req b) = inr resp /\
  no_empty_value (Header resp) /\
  read_err (HttpBody resp) = None /\ close_err (HttpBody resp) = None.

(** The frame the filters start from. *)
Definition fresh_frame req (b : string) (resp : HttpResponse) : Frame :=
  mkFrame ref_own ref_own (recorded_request req b) (recorded_response resp).

(** The call gets past the replay block and reaches the live path with
    recorder [r2]: the load went through and the mode is [Record] or
    [Passthrough], or it is [Auto] and the selection found nothing. *)
Definition goes_live w r req (r2 : Recorder Sel) : Prop :=
  exists r1, once_Do_loadFromDisk X w r = (None, r1) /\
    (((RMode r = RecordAll \/ RMode r = Passthrough) /\ r2 = r1) \/
     (RMode r = Auto /\ exists e, select_for r1 req = (Returned (e, false), r2))).

(** How [RoundTrip] ends, from how its body ends. *)
Definition finish (out : flow HttpResponse * (Recorder Sel * World))
  : Result (error + HttpResponse) * (Recorder Sel * World) :=
  match out with
  | (Next resp, st) => (Returned (inr resp), st)
  | (Return v, st) => (Returned v, st)
  | (Panic p, st) => (Panicked p, st)
  end.

(** ** The file *)

(** The comment lines written before a document. *)
Definition document_header (n : nat) (i : Z) : string :=
  "# request " ++ pretty i ++ newline ++
  "# timestamp " ++ fst (clock X n) ++ newline ++
  "# roundtrip " ++ snd (clock X n) ++ newline.

(** What is written between two documents. *)
Definition document_break : string := newline ++ "---" ++ newline ++ newline.

(** No call on the file [name] or its directory fails. *)
Definition writable w (name : string) : Prop :=
  fault w (OpMkdirAll (path_Dir X name)) = None /\
  (forall t, fault w (OpOpenFile name t) = None) /\
  fault w (OpWrite name) = None /\ fault w (OpClose name) = None.

(** ** The provided filters *)

(** A filter made by [RemoveRequestHeader] or [RemoveResponseHeader]. *)
Inductive provided :=
| Request_header (name : string)
| Response_header (name : string).

Definition provided_filter (f : provided) : Filter :=
  match f with
  | Request_header name => RemoveRequestHeader name
  | Response_header name => RemoveResponseHeader name
  end.

Definition request_names (fs : list provided) : list string :=
  omap (fun f => match f with Request_header n => Some n | _ => None end) fs.

Definition response_names (fs : list provided) : list string :=
  omap (fun f => match f with Response_header n => Some n | _ => None end) fs.

(** The map without the keys of the list. *)
Definition without (names : list string) (h : gmap string string) : gmap string string :=
  foldr delete h names.


(** ** Chunks of the file *)





(** What [RoundTrip] in [ReplayOnly] mode makes of the selector's answer. *)
Definition replay_answer req (a : Result (Entry * bool)) : Result (error + HttpResponse) :=
  match a with
  | Returned (e, true) =>
      match EntryResponse e with
      | Some rs => Returned (inr (make_response X rs))
      | None => Panicked NilDereference
      end
  | Returned (_, false) => Returned (inl (NoRequestError req))
  | Panicked p => Panicked p
  end.


End Vocabulary.

(** * Concrete collaborators

    Stand-ins for the collaborators, to run the recorder on examples:
    byte-wise ASCII case folding for [EqualFold] (what Go does on ASCII
    text), documents given by a table for the serializer, and a server
    that echoes the request body. *)
Module Sample.

Definition lower (c : ascii) : ascii :=
  let n := nat_of_ascii c in
  if (65 <=? n)%nat && (n <=? 90)%nat then ascii_of_nat (n + 32) else c.

Definition upper (c : ascii) : ascii :=
  let n := nat_of_ascii c in
  if (97 <=? n)%nat && (n <=? 122)%nat then ascii_of_nat (n - 32) else c.

Fixpoint fold_eq (a b : string) : bool :=
  match a, b with
  | EmptyString, EmptyString => true
  | String x a', String y b' => Ascii.eqb (lower x) (lower y) && fold_eq a' b'
  | _, _ => false
  end.

Fixpoint canonical (up : bool) (s : string) : string :=
  match s with
  | EmptyString => EmptyString
  | String c s' =>
      String (if up then upper c else lower c) (canonical (Ascii.eqb c "-") s')
  end.

Fixpoint find_doc (docs : list (string * Entry)) (text : string) : string + Entry :=
  match docs with
  | [] => inl "yaml: cannot unmarshal"
  | (d, e) :: rest => if String.eqb d text then inr e else find_doc rest text
  end.

(** Answers 200 with the request body as the response body. *)
Definition echo : RoundTripper := fun _ req =>
  inr (mkHttpResponse 200 ∅
         (NopCloser (match ReqBody req with Some b => content b | None => "" end)) (-1)).

Definition externals (docs : list (string * Entry)) : Externals :=
  mkExternals fold_eq (canonical true) map_to_list
    (fun _ => inr "entry") (find_doc docs) echo (fun _ => ".")
    (fun _ => ("2019-04-30 10:02:04 +0000 UTC", "398ms")).

(** No file, nothing sent yet, no failing file-system call. *)
Definition world0 : World := mkWorld ∅ [] (fun _ => None).

Definition get (url : string) : HttpRequest := mkHttpRequest "GET" url ∅ None.
Definition post (url body : string) : HttpRequest :=
  mkHttpRequest "POST" url ∅ (Some (NopCloser body)).

(** ** Recorders, filters and files for the runs *)

(** A document as the recorder writes it, and a chunk that is not YAML. *)
Definition hello_doc : string :=
  "# request 0" ++ newline ++
  "request:" ++ newline ++ "  method: GET" ++ newline ++ "  url: http://x/1" ++ newline ++
  "response:" ++ newline ++ "  status_code: 200" ++ newline ++ "  body: hello".

Definition bad_doc : string := newline ++ "request: [".

Definition hello : Entry :=
  mkEntry (Some (mkRequest "GET" "http://x/1" ∅ ""))
          (Some (mkResponse 200 ∅ "hello")).

(** The deserializer knows [hello_doc] and rejects everything else. *)
Definition X0 : Externals := externals [(hello_doc, hello)].

(** The selector of the runs is the package's [OncePerCall]. *)
#[export] Instance once_per_call : Selector OncePerCall := OncePerCall_Selector X0.

(** A recorder as [New] makes it, without selector. *)
Definition new (filename : string) (filters : list Filter) : Recorder OncePerCall :=
  New X0 filename filters.

(** A loaded recorder holding [hello]. *)
Definition loaded (mode : Mode) : Recorder OncePerCall :=
  mkRecorder "testdata/x.yml" mode [] None None true 0 [hello].

(** A filter that rewrites the URL of the recorded request, as one would to
    keep a token in the query string out of the file. *)
Definition redact_url : Filter :=
  update_Request (fun rq => mkRequest (Method rq) "http://x/redacted" (Headers rq) (Body rq)).

(** A filter that replaces the response record of the entry:
    [e.Response = &Response{StatusCode: 200, Body: "redacted"}]. *)
Definition replace_response : Filter :=
  assign_Response (Some (mkResponse 200 ∅ "redacted")).

(** A filter that drops the response record: [e.Response = nil]. *)
Definition drop_response : Filter := assign_Response None.

(** The recorder and the world a call leaves. *)
Definition after {Sel : Type} (out : Result (error + HttpResponse) * (Recorder Sel * World))
  : Recorder Sel * World := snd out.

(** A backing file whose second chunk is not YAML. *)
Definition broken : World :=
  mkWorld {[ "testdata/x.yml" := hello_doc ++ separator ++ bad_doc ]} [] (fun _ => None).

(** The entries of [TestOncePerCall], and calls for its three keys, mixed. *)
Definition test_entry (method url body : string) : Entry :=
  mkEntry (Some (mkRequest method url ∅ "")) (Some (mkResponse 0 ∅ body)).

Definition test_entries : list Entry :=
  [ test_entry "GET" "http://foo.com/bar" "1";
    test_entry "GET" "http://foo.com/bar" "2";
    test_entry "GET" "http://foo.com/bar" "3";
    test_entry "GET" "http://foo.com/baz" "baz!";
    test_entry "PUT" "http://foo.com/baz" "putbaz!" ].

Definition test_call (method url : string) : HttpRequest := mkHttpRequest method url ∅ None.

Definition test_calls : list HttpRequest :=
  [ test_call "GET" "http://foo.com/bar"; test_call "GET" "http://foo.com/baz";
    test_call "GET" "http://foo.com/bar"; test_call "PUT" "http://foo.com/baz";
    test_call "GET" "http://foo.com/bar"; test_call "GET" "http://foo.com/baz";
    test_call "GET" "http://foo.com/bar"; test_call "PUT" "http://foo.com/baz";
    test_call "GET" "http://foo.com/bar" ].

(** More documents: a second answer to the request of [hello_doc] with the
    key in another case, a [PUT] to the same URL, and a document that has a
    request and no response. *)
Definition again_doc : string :=
  "# request 2" ++ newline ++
  "request:" ++ newline ++ "  method: get" ++ newline ++ "  url: HTTP://X/1" ++ newline ++
  "response:" ++ newline ++ "  status_code: 200" ++ newline ++ "  body: again".

Definition again : Entry :=
  mkEntry (Some (mkRequest "get" "HTTP://X/1" ∅ ""))
          (Some (mkResponse 200 ∅ "again")).

Definition put_doc : string :=
  "# request 0" ++ newline ++
  "request:" ++ newline ++ "  method: PUT" ++ newline ++ "  url: http://x/1" ++ newline ++
  "response:" ++ newline ++ "  status_code: 204".

Definition put : Entry :=
  mkEntry (Some (mkRequest "PUT" "http://x/1" ∅ ""))
          (Some (mkResponse 204 ∅ "")).

Definition request_only_doc : string :=
  "request:" ++ newline ++ "  method: GET" ++ newline ++ "  url: http://x/1".

Definition request_only : Entry :=
  mkEntry (Some (mkRequest "GET" "http://x/1" ∅ "")) None.

(** The deserializer on these documents; on the empty chunk it gives
    [Entry{}] and no error, as [yaml.Unmarshal] does. *)
Definition documents : Externals :=
  externals [ (hello_doc, hello); (again_doc, again); (put_doc, put);
              (request_only_doc, request_only); ("", zeroEntry) ].

(** A file of three documents; a file that ends in a separator; a file
    whose document has no response. *)
Definition session : World :=
  mkWorld {[ "testdata/x.yml" :=
               put_doc ++ separator ++ hello_doc ++ separator ++ again_doc ]}
          [] (fun _ => None).

Definition trailing : World :=
  mkWorld {[ "testdata/x.yml" := hello_doc ++ separator ]} [] (fun _ => None).

Definition half_recorded : World :=
  mkWorld {[ "testdata/x.yml" := request_only_doc ]} [] (fun _ => None).

(** The recorded document under the name with the extension, and
    something else under the name without it. *)
Definition decoy : World :=
  mkWorld {[ "testdata/x" := bad_doc; "testdata/x.yml" := hello_doc ]} [] (fun _ => None).

(** A recorder in [Record] mode, and what its first call leaves. *)
Definition rec0 : Recorder OncePerCall := set_Mode RecordAll (new "testdata/x" []).
Definition rec1 : Recorder OncePerCall * World :=
  after (RoundTrip X0 world0 rec0 (get "http://x/1")).

(** The same calls, those for the first key in one case or another. *)
Definition test_calls_folded : list HttpRequest :=
  [ test_call "get" "http://foo.com/bar"; test_call "GET" "http://foo.com/baz";
    test_call "GET" "HTTP://FOO.COM/BAR"; test_call "PUT" "http://foo.com/baz";
    test_call "Get" "http://Foo.com/bar"; test_call "GET" "http://foo.com/baz";
    test_call "GET" "http://foo.com/bar"; test_call "put" "http://foo.com/baz";
    test_call "get" "http://foo.com/BAR" ].

(** A transport that cannot reach the server. *)
Definition refuse : RoundTripper := fun _ _ => inl (ForeignError "connection refused").

(** A world where directories cannot be made. *)
Definition readonly : World :=
  mkWorld ∅ [] (fun op => match op with
                          | OpMkdirAll _ => Some "permission denied"
                          | _ => None
                          end).

(** A world with one recorded document. *)
Definition recorded : World :=
  mkWorld {[ "testdata/x.yml" := hello_doc ]} [] (fun _ => None).

(** A world with the document recorded twice. *)
Definition twice : World :=
  mkWorld {[ "testdata/x.yml" := hello_doc ++ separator ++ hello_doc ]} [] (fun _ => None).

(** What [echo] answers to a request with body [b]. *)
Definition echoed (b : string) : HttpResponse := mkHttpResponse 200 ∅ (NopCloser b) (-1).

(** A server that sets a cookie. *)
Definition cookie_response : HttpResponse :=
  mkHttpResponse 200 {[ "Set-Cookie" := ["hello"]; "Content-Type" := ["text/plain"] ]}
    (NopCloser "hello") 5.

Definition cookies : RoundTripper := fun _ _ => inr cookie_response.

(** A request whose body breaks off, and a server whose answer does. *)
Definition failing_body : ReadCloser := mkReadCloser "" (Some "unexpected EOF") None.

Definition upload : HttpRequest := mkHttpRequest "POST" "http://x/1" ∅ (Some failing_body).

Definition truncated_response : HttpResponse :=
  mkHttpResponse 200 ∅ (mkReadCloser "he" (Some "unexpected EOF") None) 5.

Definition truncated : RoundTripper := fun _ _ => inr truncated_response.

(** Collaborators whose serializer fails. *)
Definition unserializable : Externals :=
  mkExternals fold_eq (canonical true) map_to_list
    (fun _ => inl "yaml: cannot marshal") (find_doc [(hello_doc, hello)]) echo (fun _ => ".")
    (fun _ => ("2019-04-30 10:02:04 +0000 UTC", "398ms")).



(** A loaded recorder that replays the entries of [TestOncePerCall], each
    once. *)
Definition replaying : Recorder OncePerCall :=
  mkRecorder "testdata/x.yml" ReplayOnly [] None (Some (mkOncePerCall None)) true 0
    test_entries.

(** The two filters of the package's examples. *)
Definition redactions : list provided :=
  [Request_header "Authorization"; Response_header "Set-Cookie"].

(** A request with credentials and a header key without values. *)
Definition with_credentials : HttpRequest :=
  mkHttpRequest "GET" "http://x/1"
    {[ "Authorization" := ["abcdef"]; "Accept" := ["text/plain"; "text/html"] ]} None.


End Sample.

(** The call reaches the live path by its mode alone. *)
Ltac live_by_mode :=
  eexists; split;
  [ vm_compute; reflexivity
  | left; split; [first [left; reflexivity | right; reflexivity] | reflexivity] ].

(** No file-system call fails. *)
Ltac nothing_fails := repeat split; intros; reflexivity.

(** * Properties *)

Create HintDb flow.

Section Properties.

Variable X : Externals.
Context {Sel : Type} `{!Selector Sel}.

Implicit Types (r : Recorder Sel) (w : World) (req : HttpRequest) (e : Entry).

Let St : Type := (Recorder Sel * World)%type.

(** ** The once-guarded load *)

Lemma load_chunks_fields i values r p r1 :
  load_chunks X i values r = (p, r1) ->
  Filename r1 = Filename r /\ RMode r1 = RMode r /\ Filters r1 = Filters r /\
  Transport r1 = Transport r /\ RSelector r1 = RSelector r /\ once r1 = once r /\
  index r1 = index r.
Proof.
  revert i r. induction values as [|val rest IH]; intros i r; simpl.
  - intros [= <- <-]. repeat split.
  - destruct (Unmarshal X val) as [err|e].
    + intros [= <- <-]. repeat split.
    + intros Hl. apply IH in Hl. simpl in Hl. exact Hl.
Qed.

Lemma loadFromDisk_fields w r p r1 :
  loadFromDisk X w r = (p, r1) ->
  RMode r1 = RMode r /\ Filters r1 = Filters r /\ Transport r1 = Transport r /\
  RSelector r1 = RSelector r /\ once r1 = once r /\ index r1 = index r.
Proof.
  unfold loadFromDisk. destruct (RMode r =? Passthrough)%Z.
  - intros [= <- <-]. repeat split.
  - destruct (HasSuffix (Filename r) ".yml");
      match goal with |- context [ReadFile w ?f] => destruct (ReadFile w f) end;
      try (intros [= <- <-]; repeat split);
      intros Hl; apply load_chunks_fields in Hl; simpl in Hl; tauto.
Qed.

Lemma once_Do_fields w r p r1 :
  once_Do_loadFromDisk X w r = (p, r1) ->
  RMode r1 = RMode r /\ Filters r1 = Filters r /\ Transport r1 = Transport r /\
  RSelector r1 = RSelector r /\ once r1 = true /\ index r1 = index r.
Proof.
  unfold once_Do_loadFromDisk. destruct (once r) eqn:Ho.
  - intros [= <- <-]. repeat split. exact Ho.
  - intros Hl. apply loadFromDisk_fields in Hl. simpl in Hl. tauto.
Qed.

Lemma once_Do_done w r : once r = true -> once_Do_loadFromDisk X w r = (None, r).
Proof. unfold once_Do_loadFromDisk. intros ->. reflexivity. Qed.

(** ** Selection, as [RoundTrip] performs it once the load has run *)

Lemma select_for_fields r req res r2 :
  select_for X r req = (res, r2) ->
  Filename r2 = Filename r /\ RMode r2 = RMode r /\ Filters r2 = Filters r /\
  Transport r2 = Transport r /\ once r2 = once r /\ index r2 = index r /\
  entries r2 = entries r.
Proof.
  unfold select_for. destruct (RSelector r) as [s|].
  - destruct (Select s (entries r) req) as [res' s']. intros [= <- <-]. repeat split.
  - intros [= <- <-]. repeat split.
Qed.

Lemma replay_unfold w r req :
  once r = true -> replay X req (r, w) = replay_outcome X w r req.
Proof.
  intros Ho. unfold replay, replay_outcome, select_for.
  unfold mbind, M_bind, get_r. simpl.
  destruct ((RMode r =? Auto)%Z || (RMode r =? ReplayOnly)%Z); [|reflexivity].
  destruct (RSelector r) as [s|].
  - unfold call_Select. simpl.
    destruct (Select s (entries r) req) as [[[e [|]]|p] s']; simpl; try reflexivity.
    + destruct (EntryResponse e); reflexivity.
    + destruct (RMode r =? ReplayOnly)%Z; reflexivity.
  - unfold call_Lookup, Lookup. simpl. rewrite (once_Do_done w r Ho).
    destruct (Lookup_loop X (entries r) (ReqMethod req) (ReqURL req)) as [[e [|]]|p];
      simpl; try reflexivity.
    + destruct (EntryResponse e); reflexivity.
    + destruct (RMode r =? ReplayOnly)%Z; reflexivity.
Qed.

(** [RoundTrip], cut at its three stages. *)
Lemma RoundTrip_unfold w r req :
  RoundTrip X w r req =
  if (Passthrough <? RMode r)%Z then (Panicked (PanicMsg "Unsupported mode"), (r, w))
  else match once_Do_loadFromDisk X w r with
       | (Some p, r1) => (Panicked p, (r1, w))
       | (None, r1) =>
           match replay_outcome X w r1 req with
           | (Next _, st) =>
               match live X req st with
               | (Next resp, st') => (Returned (inr resp), st')
               | (Return v, st') => (Returned v, st')
               | (Panic p, st') => (Panicked p, st')
               end
           | (Return v, st) => (Returned v, st)
           | (Panic p, st) => (Panicked p, st)
           end
       end.
Proof.
  unfold RoundTrip, RoundTrip_body. unfold mbind at 1. unfold M_bind at 1, get_r. simpl.
  destruct (Passthrough <? RMode r)%Z; [reflexivity|].
  unfold mbind at 1. unfold M_bind at 1, skip. simpl.
  unfold mbind at 1. unfold M_bind at 1, do_once. simpl.
  destruct (once_Do_loadFromDisk X w r) as [[p|] r1] eqn:Hl; [reflexivity|].
  apply once_Do_fields in Hl as (_ & _ & _ & _ & Ho & _).
  unfold mbind at 1. unfold M_bind at 1. rewrite (replay_unfold w r1 req Ho).
  destruct (replay_outcome X w r1 req) as [[[]|v|p] st]; reflexivity.
Qed.

(** ** Unsupported modes *)

(** A mode above [Passthrough] panics on entry: nothing is loaded, selected,
    sent or written. *)
Lemma RoundTrip_mode_above_Passthrough w r req :
  (Passthrough < RMode r)%Z ->
  RoundTrip X w r req = (Panicked (PanicMsg "Unsupported mode"), (r, w)).
Proof.
  intros Hm. rewrite RoundTrip_unfold.
  destruct (Z.ltb_spec Passthrough (RMode r)); [reflexivity | lia].
Qed.

(** ** Replay *)

Lemma Lookup_loop_found es method url e :
  Lookup_loop X es method url = Returned (e, true) -> e ∈ es.
Proof.
  induction es as [|e0 rest IH]; simpl; [discriminate|].
  destruct (EntryRequest e0) as [rq|]; [|discriminate].
  destruct (key_match X rq method url).
  - intros [= <-]. left.
  - intros Hl. right. auto.
Qed.

(** C2. In [ReplayOnly] mode, when the selector (or, with none set, the
    default lookup) finds no entry for the request, [RoundTrip] returns
    [NoRequestError] carrying the request; the world is the one it started
    in, so nothing was sent and no file was written or created; and the
    recorder is the one the once-guarded load left, up to the selector's own
    bookkeeping: no entry was appended, the write index did not move. *)
Theorem ReplayOnly_no_entry w r req r1 e r2 :
  RMode r = ReplayOnly ->
  once_Do_loadFromDisk X w r = (None, r1) ->
  select_for X r1 req = (Returned (e, false), r2) ->
  RoundTrip X w r req = (Returned (inl (NoRequestError req)), (r2, w))
  /\ entries r2 = entries r1 /\ index r2 = index r1 /\ Filename r2 = Filename r1
  /\ (RSelector r = None -> r2 = r1)
  /\ (once r = true -> r1 = r).
Proof.
  intros Hm Hl Hs.
  pose proof (once_Do_fields _ _ _ _ Hl) as (Hm1 & _ & _ & Hsel & _ & _).
  pose proof (select_for_fields _ _ _ _ Hs) as (Hf & _ & _ & _ & _ & Hi & He).
  split; [|repeat split; auto].
  - rewrite RoundTrip_unfold, Hm, Hl. simpl.
    unfold replay_outcome. rewrite Hs, Hm1, Hm. reflexivity.
  - intros Hn. unfold select_for in Hs. rewrite Hsel, Hn in Hs. congruence.
  - intros Ho. rewrite once_Do_done in Hl by exact Ho. congruence.
Qed.

(** C3, as amended. In [Auto] or [ReplayOnly] mode, when the selection
    yields a stored entry: if the entry has a response record [rs],
    [RoundTrip] returns a response with [rs]'s status code, the expansion of
    [rs]'s header map, [rs]'s body and the length of that body as
    [ContentLength]; if it has none, [RoundTrip] panics on the nil pointer.
    Either way the world is untouched, so there was no network I/O, and the
    entries are those the load left. With the default rule the entry is one
    of the list. *)
Theorem replay_response w r req r1 e r2 :
  RMode r = Auto \/ RMode r = ReplayOnly ->
  once_Do_loadFromDisk X w r = (None, r1) ->
  select_for X r1 req = (Returned (e, true), r2) ->
  (forall rs, EntryResponse e = Some rs ->
     RoundTrip X w r req =
       (Returned (inr (mkHttpResponse (StatusCode rs) (expandHeader X (RespHeaders rs))
                         (NopCloser (RespBody rs))
                         (Z.of_nat (String.length (RespBody rs))))),
        (r2, w)))
  /\ (EntryResponse e = None ->
      RoundTrip X w r req = (Panicked NilDereference, (r2, w)))
  /\ entries r2 = entries r1
  /\ (RSelector r = None -> e ∈ entries r1).
Proof.
  intros Hm Hl Hs.
  pose proof (once_Do_fields _ _ _ _ Hl) as (Hm1 & _ & _ & Hsel & _ & _).
  pose proof (select_for_fields _ _ _ _ Hs) as (_ & _ & _ & _ & _ & _ & He).
  assert (forall o, EntryResponse e = o ->
            RoundTrip X w r req =
            match o with
            | Some rs => (Returned (inr (make_response X rs)), (r2, w))
            | None => (Panicked NilDereference, (r2, w))
            end) as Hcall.
  { intros o Hr. rewrite RoundTrip_unfold.
    assert ((Passthrough <? RMode r)%Z = false) as ->
      by (destruct Hm as [-> | ->]; reflexivity).
    rewrite Hl. unfold replay_outcome. rewrite Hs, Hr, Hm1.
    assert ((RMode r =? Auto)%Z || (RMode r =? ReplayOnly)%Z = true) as ->
      by (destruct Hm as [-> | ->]; reflexivity).
    destruct o; reflexivity. }
  split; [intros rs Hr; exact (Hcall _ Hr)|].
  split; [intros Hr; exact (Hcall _ Hr)|].
  split; [exact He|].
  intros Hn. unfold select_for in Hs. rewrite Hsel, Hn in Hs.
  injection Hs as Hs _. eapply Lookup_loop_found, Hs.
Qed.

(** ** Lookup *)

Lemma load_chunks_set_Selector s i values r :
  load_chunks X i values (set_Selector s r) =
  (fst (load_chunks X i values r), set_Selector s (snd (load_chunks X i values r))).
Proof.
  revert i r. induction values as [|val rest IH]; intros i r; simpl; [reflexivity|].
  destruct (Unmarshal X val) as [err|e]; [reflexivity|].
  exact (IH (S i) (set_entries (entries r ++ [e]) r)).
Qed.

Lemma once_Do_set_Selector s w r :
  once_Do_loadFromDisk X w (set_Selector s r) =
  (fst (once_Do_loadFromDisk X w r), set_Selector s (snd (once_Do_loadFromDisk X w r))).
Proof.
  unfold once_Do_loadFromDisk. simpl. destruct (once r); [reflexivity|].
  unfold loadFromDisk. simpl. destruct (RMode r =? Passthrough)%Z; [reflexivity|].
  destruct (HasSuffix (Filename r) ".yml"); simpl;
    match goal with |- context [ReadFile w ?f] => destruct (ReadFile w f) end;
    try reflexivity;
    first [ exact (load_chunks_set_Selector s _ _ (set_once true r))
          | exact (load_chunks_set_Selector s _ _
                     (set_Filename (Filename r ++ ".yml") (set_once true r))) ].
Qed.

Lemma Lookup_loop_first pre e rq post method url :
  Forall (other_key X method url) pre ->
  EntryRequest e = Some rq -> key_match X rq method url = true ->
  Lookup_loop X (pre ++ e :: post)%list method url = Returned (e, true).
Proof.
  intros Hpre He Hk. induction Hpre as [|e0 pre (rq0 & H0 & Hk0) _ IH]; simpl.
  - rewrite He, Hk. reflexivity.
  - rewrite H0, Hk0. exact IH.
Qed.

Lemma Lookup_loop_none es method url :
  Forall (other_key X method url) es ->
  Lookup_loop X es method url = Returned (zeroEntry, false).
Proof.
  intros Hes. induction Hes as [|e0 es (rq0 & H0 & Hk0) _ IH]; simpl; [reflexivity|].
  rewrite H0, Hk0. exact IH.
Qed.

Lemma Lookup_loop_nil pre e post method url :
  Forall (other_key X method url) pre -> EntryRequest e = None ->
  Lookup_loop X (pre ++ e :: post)%list method url = Panicked NilDereference.
Proof.
  intros Hpre He. induction Hpre as [|e0 pre (rq0 & H0 & Hk0) _ IH]; simpl.
  - rewrite He. reflexivity.
  - rewrite H0, Hk0. exact IH.
Qed.

(** C5, as amended. [Lookup] first runs the once-guarded load, which leaves
    the recorder [r1] (equal to [r] when the load had already run). Going
    through the entries in list order, it returns the first whose request
    record has a method and a URL that [EqualFold] the given ones, with
    [true]; it returns [(Entry{}, false)] when every entry has a request
    record and none has the key; and it panics when it comes to an entry
    without request record before any match. The recorder it leaves is
    [r1], so the lookup itself changes nothing; and the selector set on the
    recorder has no part in it. *)
Theorem Lookup_default_rule w r method url r1 :
  once_Do_loadFromDisk X w r = (None, r1) ->
  (forall (pre : list Entry) e rq post,
      entries r1 = (pre ++ e :: post)%list ->
      Forall (other_key X method url) pre ->
      EntryRequest e = Some rq -> key_match X rq method url = true ->
      Lookup X w r method url = (Returned (e, true), r1))
  /\ (Forall (other_key X method url) (entries r1) ->
      Lookup X w r method url = (Returned (zeroEntry, false), r1))
  /\ (forall (pre : list Entry) e post,
      entries r1 = (pre ++ e :: post)%list ->
      Forall (other_key X method url) pre -> EntryRequest e = None ->
      Lookup X w r method url = (Panicked NilDereference, r1))
  /\ once r1 = true
  /\ (once r = true -> r1 = r)
  /\ (forall s, Lookup X w (set_Selector s r) method url =
                (fst (Lookup X w r method url), set_Selector s r1)).
Proof.
  intros Hl. split; [|split; [|split; [|split; [|split]]]].
  - intros pre e rq post He Hpre Hrq Hk. unfold Lookup. rewrite Hl, He.
    rewrite (Lookup_loop_first pre e rq post); auto.
  - intros Hes. unfold Lookup. rewrite Hl, Lookup_loop_none; auto.
  - intros pre e post He Hpre Hrq. unfold Lookup. rewrite Hl, He.
    rewrite (Lookup_loop_nil pre e post); auto.
  - apply once_Do_fields in Hl. tauto.
  - intros Ho. rewrite once_Do_done in Hl by exact Ho. congruence.
  - intros s. unfold Lookup. rewrite once_Do_set_Selector, Hl. reflexivity.
Qed.

(** ** The live call, step by step *)

Lemma bind_inv {A B : Type} (m : M A) (f : A -> M B) (st st' : St) o :
  mbind f m st = (o, st') ->
  match m st with
  | (Next a, st1) => f a st1 = (o, st')
  | (Return v, st1) => o = Return v /\ st' = st1
  | (Panic p, st1) => o = Panic p /\ st' = st1
  end.
Proof.
  unfold mbind, M_bind. destruct (m st) as [[a|v|p] st1]; [auto| |];
    intros [= <- <-]; auto.
Qed.

Lemma no_response_Next {A : Type} (a : A) : no_response (Next a).
Proof. intros v; discriminate. Qed.

Lemma no_response_Panic {A : Type} p : no_response (@Panic A p).
Proof. intros v; discriminate. Qed.

Lemma no_response_Return {A B : Type} v :
  no_response (@Return A v) -> no_response (@Return B v).
Proof. intros H v' [= <-]. apply H. reflexivity. Qed.

Lemma no_response_error {A : Type} err : no_response (@Return A (inl err)).
Proof. intros v [= <-]. eauto. Qed.

Hint Resolve no_response_Next no_response_Panic no_response_error : flow.
Hint Extern 2 (no_response (Return _)) =>
  (eapply no_response_Return; eassumption) : flow.

(** Closes the branches in which a step has already left by an error or a
    panic. *)
Ltac left_early H :=
  destruct H as [-> ->]; repeat split; auto with flow; congruence.

Lemma check_spec err (st st' : St) o :
  check err st = (o, st') -> st' = st /\ no_response o.
Proof.
  unfold check, return_, skip, mret, M_ret. destruct err; intros [= <- <-];
    split; auto with flow.
Qed.

Lemma call_spec {A : Type} (x : Result A) (st st' : St) o :
  call x st = (o, st') ->
  st' = st /\ no_response o /\ (forall a, o = Next a -> x = Returned a).
Proof.
  unfold call, throw, mret, M_ret. destruct x; intros [= <- <-];
    repeat split; auto with flow; congruence.
Qed.

Lemma construct_request_spec req (st st' : St) o :
  construct_request req st = (o, st') ->
  st' = st /\ no_response o /\
  (forall q out, o = Next (q, out) ->
     Method out = ReqMethod req /\ URL out = ReqURL req /\
     q = mkHttpRequest (ReqMethod req) (ReqURL req) (ReqHeader req)
           (Some (NopCloser (Body out)))).
Proof.
  unfold construct_request. intros H. apply bind_inv in H.
  assert (forall (b : string) (st0 : St),
    (hs ← call (flattenHeader (ReqHeader req));
     hs' ← call (copy_first_values (ReqHeader req) hs);
     mret (mkHttpRequest (ReqMethod req) (ReqURL req) (ReqHeader req) (Some (NopCloser b)),
           mkRequest (ReqMethod req) (ReqURL req) hs' b)) st0 = (o, st') ->
    st' = st0 /\ no_response o /\
    (forall q out, o = Next (q, out) ->
       Method out = ReqMethod req /\ URL out = ReqURL req /\
       q = mkHttpRequest (ReqMethod req) (ReqURL req) (ReqHeader req)
             (Some (NopCloser (Body out))))) as Hrest.
  { clear H. intros b st0 H. apply bind_inv in H.
    destruct (call (flattenHeader (ReqHeader req)) st0) as [[hs|v|p] st1] eqn:E1;
      apply call_spec in E1 as (-> & Hn1 & _); [| left_early H ..].
    apply bind_inv in H.
    destruct (call (copy_first_values (ReqHeader req) hs) st0) as [[hs'|v|p] st2] eqn:E2;
      apply call_spec in E2 as (-> & Hn2 & _); [| left_early H ..].
    injection H as <- <-. split; [reflexivity|]. split; [auto with flow|].
    intros q out [= <- <-]. auto. }
  destruct (ReqBody req) as [b|].
  - simpl in H. unfold mbind at 1 in H. unfold M_bind at 1 in H.
    destruct (check (read_err b) st) as [[[]|v|p] st1] eqn:E;
      apply check_spec in E as [-> Hn]; [| left_early H ..].
    simpl in H. apply Hrest in H. exact H.
  - simpl in H. apply Hrest in H. exact H.
Qed.

Lemma send_request_spec t q r w (st' : St) o :
  send_request t q (r, w) = (o, st') ->
  st' = (r, mkWorld (files w) (net w ++ [q]) (fault w)) /\ no_response o.
Proof.
  unfold send_request, mbind, M_bind, get_w, modify_w, return_, mret, M_ret. simpl.
  destruct (t (net w) q); intros [= <- <-]; split; auto with flow.
Qed.

Lemma construct_response_spec resp (st st' : St) o :
  construct_response resp st = (o, st') -> st' = st /\ no_response o.
Proof.
  unfold construct_response. intros H. apply bind_inv in H.
  destruct (call (flattenHeader (Header resp)) st) as [[hs|v|p] st1] eqn:E1;
    apply call_spec in E1 as (-> & Hn1 & _); [| left_early H ..].
  apply bind_inv in H.
  destruct (check (read_err (HttpBody resp)) st) as [[[]|v|p] st1] eqn:E2;
    apply check_spec in E2 as (-> & Hn2); [| left_early H ..].
  apply bind_inv in H.
  destruct (check (close_err (HttpBody resp)) st) as [[[]|v|p] st1] eqn:E3;
    apply check_spec in E3 as (-> & Hn3); [| left_early H ..].
  injection H as <- <-. split; auto with flow.
Qed.

Lemma same_config_refl r : same_config r r.
Proof. repeat split. Qed.

Lemma same_config_trans r1 r2 r3 :
  same_config r1 r2 -> same_config r2 r3 -> same_config r1 r3.
Proof. unfold same_config. intuition congruence. Qed.

Lemma default_transport_spec r w :
  exists t r0, default_transport X (r, w) = (Next t, (r0, w)) /\ same_config r r0
               /\ index r0 = index r /\ entries r0 = entries r.
Proof.
  unfold default_transport, mbind, M_bind, get_r. simpl.
  destruct (Transport r) as [t|].
  - exists t, r. repeat split.
  - eexists _, _. split; [reflexivity|]. repeat split.
Qed.

Lemma OpenFile_spec name tr r w (st' : St) o :
  OpenFile name tr (r, w) = (o, st') ->
  no_response o /\ fst st' = r /\ net (snd st') = net w /\ fault (snd st') = fault w.
Proof.
  unfold OpenFile. intros H. apply bind_inv in H. simpl in H. apply bind_inv in H.
  destruct (check (fault w (OpOpenFile name tr)) (r, w)) as [[[]|v|p] st1] eqn:E;
    apply check_spec in E as (-> & Hn); [| left_early H ..].
  destruct tr.
  - injection H as <- <-. repeat split. auto with flow.
  - destruct (files w !! name); injection H as <- <-; repeat split; auto with flow.
Qed.

Lemma append_file_frame name text w :
  net (append_file name text w) = net w /\ fault (append_file name text w) = fault w.
Proof. split; reflexivity. Qed.

Lemma save_to_disk_spec n e r w (st' : St) o :
  save_to_disk X n e (r, w) = (o, st') ->
  no_response o /\ same_config r (fst st') /\ entries (fst st') = entries r /\
  Transport (fst st') = Transport r /\
  net (snd st') = net w /\ fault (snd st') = fault w.
Proof.
  unfold save_to_disk. intros H.
  apply bind_inv in H; simpl in H. apply bind_inv in H; simpl in H.
  apply bind_inv in H.
  destruct (check (fault w (OpMkdirAll (path_Dir X (Filename r)))) (r, w))
    as [[[]|v|p] st1] eqn:E; apply check_spec in E as (-> & Hn);
    [| destruct H as [-> ->]; repeat split; auto with flow ..].
  apply bind_inv in H.
  destruct (OpenFile (Filename r) (index r =? 0)%Z (r, w)) as [[[]|v|p] [r1 w1]] eqn:E;
    apply OpenFile_spec in E as (Hn1 & Hr1 & Hnet1 & Hf1); simpl in Hr1, Hnet1, Hf1; subst r1;
    [| destruct H as [-> ->]; repeat split; auto with flow ..].
  apply bind_inv in H.
  set (w2 := if (0 <? index r)%Z
             then append_file (Filename r) (newline ++ "---" ++ newline ++ newline) w1
             else w1).
  assert ((if (0 <? index r)%Z
           then modify_w (append_file (Filename r) (newline ++ "---" ++ newline ++ newline))
           else skip) (r, w1) = (Next tt, (r, w2))) as Hsep
    by (unfold w2; destruct (0 <? index r)%Z; reflexivity).
  assert (net w2 = net w /\ fault w2 = fault w) as [Hnet2 Hf2]
    by (unfold w2; destruct (0 <? index r)%Z; simpl; auto).
  rewrite Hsep in H. clearbody w2. clear Hsep.
  do 4 (apply bind_inv in H; simpl in H).
  destruct (Marshal X e) as [err|b].
  - injection H as <- <-. repeat split; auto with flow.
  - apply bind_inv in H.
    match type of H with context [check ?c ?s] =>
      destruct (check c s) as [[[]|v|p] st1] eqn:E; apply check_spec in E as (-> & Hn2);
      [| destruct H as [-> ->]; repeat split; auto with flow ..]
    end.
    apply bind_inv in H; simpl in H.
    apply check_spec in H as (-> & Hn3). repeat split; auto with flow.
Qed.

(** What the live path does, whatever way it ends: it never returns a
    response early, it leaves the configuration alone, it sends exactly one
    request unless it stops before the transport is called, and it either
    leaves the entries alone (and then yields no response) or appends the
    entry the filters left. Outside [Auto] and [Record] it writes no file
    and leaves the write index alone. *)
Lemma live_spec req r w o r' w' :
  live X req (r, w) = (o, (r', w')) ->
  no_response o /\ same_config r r' /\ fault w' = fault w /\
  ((RMode r =? Auto)%Z || (RMode r =? RecordAll)%Z = false ->
     files w' = files w /\ index r' = index r) /\
  ((entries r' = entries r /\ (forall resp, o <> Next resp) /\
    (net w' = net w \/ exists q, net w' = (net w ++ [q])%list))
   \/
   (exists out in_ fr,
      Method out = ReqMethod req /\ URL out = ReqURL req /\
      apply_filters (Filters r) (mkFrame ref_own ref_own out in_) = Returned fr /\
      entries r' = (entries r ++ [entry_of fr])%list /\
      net w' = (net w ++ [mkHttpRequest (ReqMethod req) (ReqURL req) (ReqHeader req)
                            (Some (NopCloser (Body out)))])%list /\
      (forall resp, o = Next resp -> resp = make_response X (in_rec fr)))).
Proof.
  unfold live. intros H. apply bind_inv in H.
  destruct (default_transport_spec r w) as (t & r0 & Ht & Hc0 & Hi0 & He0).
  rewrite Ht in H. clear Ht.
  assert (RMode r0 = RMode r) as Hm0 by apply Hc0.
  assert (Filters r0 = Filters r) as Hfl0 by apply Hc0.
  apply bind_inv in H.
  destruct (construct_request req (r0, w)) as [[[q out]|v|p] st1] eqn:E;
    apply construct_request_spec in E as (-> & Hn & Hq);
    [| destruct H as [-> [= -> ->]]; repeat split; try apply Hc0; auto with flow;
       left; repeat split; auto; congruence ..].
  destruct (Hq q out eq_refl) as (Hmeth & Hurl & ->). clear Hq.
  apply bind_inv in H; simpl in H. apply bind_inv in H.
  match type of H with context [send_request t ?q0 _] => set (q := q0) in * end.
  destruct (send_request t q (r0, w)) as [[resp0|v|p] st1] eqn:E;
    apply send_request_spec in E as (-> & Hn1);
    [| destruct H as [-> [= -> ->]]; repeat split; try apply Hc0; auto with flow;
       left; repeat split; eauto; congruence ..].
  apply bind_inv in H.
  match type of H with context [construct_response resp0 ?s] =>
    destruct (construct_response resp0 s) as [[in_|v|p] st1] eqn:E;
    apply construct_response_spec in E as (-> & Hn2);
    [| destruct H as [-> [= -> ->]]; repeat split; try apply Hc0; auto with flow;
       left; repeat split; eauto; congruence ..]
  end.
  apply bind_inv in H; simpl in H. apply bind_inv in H.
  match type of H with context [call ?x ?s] =>
    destruct (call x s) as [[fr|v|p] st1] eqn:E;
    apply call_spec in E as (-> & Hn3 & Hfr);
    [| destruct H as [-> [= -> ->]]; repeat split; try apply Hc0; auto with flow;
       left; repeat split; eauto; congruence ..]
  end.
  specialize (Hfr fr eq_refl). rewrite Hfl0 in Hfr.
  apply bind_inv in H; simpl in H. apply bind_inv in H. rewrite Hm0 in H.
  destruct ((RMode r =? Auto)%Z || (RMode r =? RecordAll)%Z) eqn:Hmode.
  - match type of H with context [save_to_disk X ?n ?e (?r2, ?w2)] =>
      destruct (save_to_disk X n e (r2, w2)) as [[[]|v|p] [r3 w3]] eqn:E;
      apply save_to_disk_spec in E as (Hn4 & Hc4 & He4 & _ & Hnet4 & Hf4);
      simpl in Hc4, He4, Hnet4, Hf4
    end.
    + injection H as <- <- <-.
      repeat split; try (apply (same_config_trans _ _ _ Hc0 Hc4)); auto with flow;
        try discriminate.
      right. exists out, in_, fr. rewrite He4, He0. repeat split; auto. congruence.
    + destruct H as [-> [= -> ->]].
      repeat split; try (apply (same_config_trans _ _ _ Hc0 Hc4)); auto with flow;
        try discriminate.
      right. exists out, in_, fr. rewrite He4, He0. repeat split; auto. congruence.
    + destruct H as [-> [= -> ->]].
      repeat split; try (apply (same_config_trans _ _ _ Hc0 Hc4)); auto with flow;
        try discriminate.
      right. exists out, in_, fr. rewrite He4, He0. repeat split; auto. congruence.
  - simpl in H. injection H as <- <- <-.
    repeat split; try apply Hc0; auto with flow.
    right. exists out, in_, fr. simpl. rewrite He0. repeat split; auto. congruence.
Qed.

(** ** Filters that keep the entry in shape *)

Lemma apply_filters_keeps_records fs fr fr' :
  Forall keeps_records fs -> apply_filters fs fr = Returned fr' ->
  complete (entry_of fr) -> complete (entry_of fr').
Proof.
  intros Hfs. revert fr. induction Hfs as [|f fs Hf _ IH]; intros fr; simpl.
  - intros [= <-]. auto.
  - destruct (f fr) as [fr1|p] eqn:E; [|discriminate].
    intros Ha Hc. eapply IH; eauto.
Qed.

Lemma apply_filters_keeps_key fs fr fr' rq :
  Forall keeps_key fs -> apply_filters fs fr = Returned fr' ->
  EntryRequest (entry_of fr) = Some rq ->
  exists rq', EntryRequest (entry_of fr') = Some rq' /\
              Method rq' = Method rq /\ URL rq' = URL rq.
Proof.
  intros Hfs. revert fr rq. induction Hfs as [|f fs Hf _ IH]; intros fr rq; simpl.
  - intros [= <-]. eauto.
  - destruct (f fr) as [fr1|p] eqn:E; [|discriminate].
    intros Ha Hrq. destruct (Hf _ _ _ E Hrq) as (rq1 & H1 & Hm1 & Hu1).
    destruct (IH _ _ Ha H1) as (rq' & H' & Hm' & Hu'). exists rq'. intuition congruence.
Qed.

Lemma update_Request_keeps_records f : keeps_records (update_Request f).
Proof.
  intros fr fr'. unfold update_Request, complete, entry_of.
  destruct (e_Request fr); simpl; [discriminate| |]; intros [= <-]; simpl;
    intros [_ H]; split; eauto.
Qed.

Lemma update_Response_keeps_records f : keeps_records (update_Response f).
Proof.
  intros fr fr'. unfold update_Response, complete, entry_of.
  destruct (e_Response fr); simpl; [discriminate| |]; intros [= <-]; simpl;
    intros [H _]; split; eauto.
Qed.

Lemma update_Request_keeps_key f :
  (forall rq, Method (f rq) = Method rq /\ URL (f rq) = URL rq) ->
  keeps_key (update_Request f).
Proof.
  intros Hf fr fr' rq. unfold update_Request, entry_of.
  destruct (e_Request fr); simpl; [discriminate| |]; intros [= <-] [= <-]; simpl;
    eexists; split; try reflexivity; apply Hf.
Qed.

Lemma update_Response_keeps_key f : keeps_key (update_Response f).
Proof.
  intros fr fr' rq. unfold update_Response, entry_of.
  destruct (e_Response fr); simpl; [discriminate| |]; intros [= <-]; simpl; eauto.
Qed.

(** The two filters the package provides keep the entry in shape. *)
Lemma RemoveRequestHeader_keeps name :
  keeps_records (RemoveRequestHeader name) /\ keeps_key (RemoveRequestHeader name).
Proof.
  split; [apply update_Request_keeps_records|].
  apply update_Request_keeps_key. intros rq. split; reflexivity.
Qed.

Lemma RemoveResponseHeader_keeps name :
  keeps_records (RemoveResponseHeader name) /\ keeps_key (RemoveResponseHeader name).
Proof.
  split; [apply update_Response_keeps_records | apply update_Response_keeps_key].
Qed.

(** The filters run in list order, each on what the ones before left. *)
Lemma apply_filters_app fs1 fs2 fr :
  apply_filters (fs1 ++ fs2) fr =
  match apply_filters fs1 fr with
  | Returned fr1 => apply_filters fs2 fr1
  | Panicked p => Panicked p
  end.
Proof.
  revert fr. induction fs1 as [|f fs1 IH]; intros fr; simpl; [reflexivity|].
  destruct (f fr); [apply IH | reflexivity].
Qed.

Lemma update_Request_writes_through f : writes_through (update_Request f).
Proof.
  intros fr fr'. unfold update_Request.
  destruct (e_Request fr); [discriminate| |]; intros [= <-]; auto.
Qed.

Lemma update_Response_writes_through f : writes_through (update_Response f).
Proof.
  intros fr fr'. unfold update_Response.
  destruct (e_Response fr); [discriminate| |]; intros [= <-]; simpl; auto; discriminate.
Qed.

Lemma apply_filters_writes_through fs fr fr' :
  Forall writes_through fs -> apply_filters fs fr = Returned fr' ->
  e_Response fr = ref_own -> EntryResponse (entry_of fr') = Some (in_rec fr').
Proof.
  intros Hfs. revert fr. induction Hfs as [|f fs Hf _ IH]; intros fr; simpl.
  - intros [= <-] Hown. unfold entry_of. rewrite Hown. reflexivity.
  - destruct (f fr) as [fr1|p] eqn:E; [|discriminate]. intros Ha Hown. eauto.
Qed.

(** With filters that only write through [e.Response], the response of a
    live call is the one built from the response record of the entry it
    appended. *)
Lemma live_response_in_place w r req resp r' w' :
  Forall writes_through (Filters r) ->
  live X req (r, w) = (Next resp, (r', w')) ->
  exists e rs, entries r' = (entries r ++ [e])%list /\ EntryResponse e = Some rs /\
               resp = make_response X rs.
Proof.
  intros Hfs Hlive.
  apply live_spec in Hlive as (_ & _ & _ & _ & [(_ & Hno & _) | Happ]).
  - exfalso. eapply Hno. reflexivity.
  - destruct Happ as (out & in_ & fr & _ & _ & Hfr & He & _ & Hresp).
    exists (entry_of fr), (in_rec fr). repeat split; auto.
    eapply apply_filters_writes_through; eauto.
Qed.

(** ** Auto mode: one live call, then replay *)





(** ** Passthrough *)

Lemma Lookup_loop_first_with_key method url es m :
  first_with_key X method url es m ->
  Lookup_loop X es method url = Returned (m, true).
Proof.
  intros (pre & post & rq & -> & Hpre & Hrq & Hk). eapply Lookup_loop_first; eauto.
Qed.

Lemma first_with_key_exists method url es e rq :
  Forall (fun e' => is_Some (EntryRequest e')) es ->
  e ∈ es -> EntryRequest e = Some rq -> key_match X rq method url = true ->
  exists m, first_with_key X method url es m.
Proof.
  intros Hes. induction Hes as [|e0 es [rq0 H0] _ IH]; intros Hin Hrq Hk.
  - inversion Hin.
  - destruct (key_match X rq0 method url) eqn:Hk0.
    + exists e0, [], es, rq0. repeat split; auto.
    + assert (e ∈ es) as Hin'.
      { apply elem_of_cons in Hin as [-> | ?]; [congruence | assumption]. }
      destruct (IH Hin' Hrq Hk) as (m & pre & post & rqm & -> & Hpre & Hm & Hkm).
      exists m, (e0 :: pre), post, rqm. repeat split; auto.
      constructor; [exists rq0; auto | exact Hpre].
Qed.

(** C4, as amended. In [Passthrough] mode the once-guarded load reads
    nothing (in whatever world it runs, it leaves the recorder as it is but
    for the guard) and [RoundTrip] leaves the files as they are. When it
    comes back with a response it has appended one entry. With filters that
    keep the request's method and URL that entry has the request's key, so a
    following [Lookup] with that method and URL, provided the earlier
    entries all have a request record, returns [true] with the first entry
    of the list having the key: the appended entry itself when no earlier
    entry has the key. *)
Theorem Passthrough_round_trip w r req res r' w' :
  RMode r = Passthrough ->
  RoundTrip X w r req = (res, (r', w')) ->
  (forall w0, once_Do_loadFromDisk X w0 r = (None, set_once true r))
  /\ files w' = files w
  /\ (forall resp, res = Returned (inr resp) ->
      exists e,
        entries r' = (entries r ++ [e])%list /\
        ((forall s, EqualFold X s s = true) -> Forall keeps_key (Filters r) ->
         (exists rq, EntryRequest e = Some rq /\
                     key_match X rq (ReqMethod req) (ReqURL req) = true) /\
         (Forall (fun e' => is_Some (EntryRequest e')) (entries r) ->
          exists m, first_with_key X (ReqMethod req) (ReqURL req) (entries r') m /\
            Lookup X w' r' (ReqMethod req) (ReqURL req) = (Returned (m, true), r')) /\
         (Forall (other_key X (ReqMethod req) (ReqURL req)) (entries r) ->
          Lookup X w' r' (ReqMethod req) (ReqURL req) = (Returned (e, true), r')))).
Proof.
  intros Hm H.
  assert (forall w0, once_Do_loadFromDisk X w0 r = (None, set_once true r)) as Hload.
  { intros w0. unfold once_Do_loadFromDisk, loadFromDisk. simpl. rewrite Hm. simpl.
    destruct r as [fn md fl tr sl [|] ix es]; reflexivity. }
  split; [exact Hload|].
  rewrite RoundTrip_unfold, Hm, Hload in H. simpl in H.
  unfold replay_outcome in H. simpl in H. rewrite Hm in H. simpl in H.
  destruct (live X req (set_once true r, w)) as [o [r2 w2]] eqn:Hlive.
  apply live_spec in Hlive as (Hn & Hc & _ & Hfiles & Hcases). simpl in Hfiles, Hcases.
  rewrite Hm in Hfiles. destruct (Hfiles eq_refl) as [Hfw _].
  assert (r2 = r' /\ w2 = w') as [-> ->] by (destruct o; injection H; auto).
  split; [exact Hfw|].
  intros resp ->.
  assert (o = Next resp) as ->.
  { destruct o as [resp0|v|p]; [congruence| |discriminate].
    injection H as ->. destruct (Hn _ eq_refl). discriminate. }
  destruct Hcases as [(_ & Hno & _) | (out & in_ & fr & Hmo & Huo & Hfr & He & _)];
    [exfalso; eapply Hno; reflexivity|].
  exists (entry_of fr). split; [exact He|]. intros Hrefl Hkk.
  destruct (apply_filters_keeps_key _ _ _ out Hkk Hfr eq_refl) as (rq & Hrq & Hmq & Huq).
  assert (key_match X rq (ReqMethod req) (ReqURL req) = true) as Hk
    by (unfold key_match; rewrite Hmq, Huq, Hmo, Huo, !Hrefl; reflexivity).
  assert (once r' = true) as Ho by (destruct Hc as (_ & _ & _ & _ & ->); reflexivity).
  split; [eauto|]. split.
  - intros Hreqs.
    destruct (first_with_key_exists (ReqMethod req) (ReqURL req) (entries r')
                (entry_of fr) rq) as [m Hfirst]; auto.
    + rewrite He. apply Forall_app. split; [exact Hreqs|].
      constructor; [eauto | constructor].
    + rewrite He. apply elem_of_app. right. left.
    + exists m. split; [exact Hfirst|]. unfold Lookup.
      rewrite once_Do_done by exact Ho.
      rewrite (Lookup_loop_first_with_key _ _ _ _ Hfirst). reflexivity.
  - intros Hpre. unfold Lookup. rewrite once_Do_done by exact Ho. rewrite He.
    rewrite (Lookup_loop_first (entries r) (entry_of fr) rq []); auto.
Qed.

(** ** Complete entries *)

Lemma load_chunks_complete i values r :
  Forall (fun chunk => forall e, Unmarshal X chunk = inr e -> complete e) values ->
  Forall complete (entries r) ->
  Forall complete (entries (snd (load_chunks X i values r))).
Proof.
  intros Hu. revert i r. induction Hu as [|val rest Hval _ IH]; intros i r Hr; simpl; auto.
  destruct (Unmarshal X val) as [err|e] eqn:E; simpl; auto.
  apply IH. simpl. apply Forall_app. split; auto.
Qed.

Lemma once_Do_complete w r :
  chunks_complete X w r ->
  Forall complete (entries r) ->
  Forall complete (entries (snd (once_Do_loadFromDisk X w r))).
Proof.
  intros Hu Hr. unfold once_Do_loadFromDisk. destruct (once r) eqn:Ho; [exact Hr|].
  unfold loadFromDisk. simpl.
  destruct (Z.eqb_spec (RMode r) Passthrough) as [|Hm]; [exact Hr|].
  specialize (Hu Ho Hm). unfold backing_file in Hu.
  destruct (HasSuffix (Filename r) ".yml"); simpl;
    match goal with |- context [ReadFile w ?f] => destruct (ReadFile w f) eqn:Hread end;
    simpl; auto; apply load_chunks_complete; auto.
Qed.

(** The entries [RoundTrip] leaves: those it found, or those the load left,
    followed by at most one, which is what the filters made of the entry
    built from the request and the response. *)
Lemma RoundTrip_entries w r req :
  exists old news,
    entries (fst (snd (RoundTrip X w r req))) = (old ++ news)%list /\
    (old = entries r \/ old = entries (snd (once_Do_loadFromDisk X w r))) /\
    (news = [] \/
     exists out in_ fr,
       Method out = ReqMethod req /\ URL out = ReqURL req /\
       apply_filters (Filters r) (mkFrame ref_own ref_own out in_) = Returned fr /\
       news = [entry_of fr]).
Proof.
  rewrite RoundTrip_unfold. destruct (Passthrough <? RMode r)%Z.
  { exists (entries r), []. rewrite app_nil_r. auto. }
  destruct (once_Do_loadFromDisk X w r) as [[p|] r1] eqn:Hl; simpl.
  { exists (entries r1), []. rewrite app_nil_r. auto. }
  apply once_Do_fields in Hl as (_ & Hf1 & _).
  assert (forall o r2 w2, replay_outcome X w r1 req = (o, (r2, w2)) ->
                          entries r2 = entries r1 /\ Filters r2 = Filters r1 /\ w2 = w)
    as Hrep.
  { unfold replay_outcome. intros o r2 w2.
    destruct ((RMode r1 =? Auto)%Z || (RMode r1 =? ReplayOnly)%Z);
      [|intros [= <- <- <-]; auto].
    destruct (select_for X r1 req) as [res r3] eqn:Hs.
    apply select_for_fields in Hs as (_ & _ & Hf3 & _ & _ & _ & He3).
    destruct res as [[e [|]]|p];
      [destruct (EntryResponse e) | destruct (RMode r1 =? ReplayOnly)%Z |];
      intros [= <- <- <-]; auto. }
  destruct (replay_outcome X w r1 req) as [o [r2 w2]] eqn:Hro.
  destruct (Hrep _ _ _ eq_refl) as (He2 & Hf2 & ->). clear Hrep.
  destruct o as [[]|v|p]; simpl;
    [| exists (entries r1), []; rewrite app_nil_r; auto ..].
  destruct (live X req (r2, w)) as [o' [r3 w3]] eqn:Hlive.
  apply live_spec in Hlive as (_ & _ & _ & _ & Hcases).
  assert (exists news,
            entries r3 = (entries r1 ++ news)%list /\
            (news = [] \/
             exists out in_ fr,
               Method out = ReqMethod req /\ URL out = ReqURL req /\
               apply_filters (Filters r) (mkFrame ref_own ref_own out in_) = Returned fr /\
               news = [entry_of fr])) as (news & Hn & Hnews).
  { destruct Hcases as [(-> & _) | (out & in_ & fr & Hm & Hu & Hfr & -> & _)].
    - exists []. rewrite app_nil_r. auto.
    - exists [entry_of fr]. rewrite He2. split; [reflexivity|]. right.
      exists out, in_, fr. rewrite <- Hf1, <- Hf2. auto. }
  exists (entries r1), news. destruct o'; auto.
Qed.

(** C9, as amended. The entry a live call builds has both records before
    the filters run, and what [RoundTrip] appends, if anything, is what the
    filters made of that entry: it has both records when the filters keep
    them, whatever the deserializer does. The entries the load appends are
    the deserializer's: when it yields entries with both records for the
    chunks of the file read, a list whose entries all have both records
    still has that property after the load, after [Lookup], and, with
    filters that keep the records, after [RoundTrip], however they end. *)
Theorem entries_stay_complete w r req :
  let r' := fst (snd (RoundTrip X w r req)) in
  let r1 := snd (once_Do_loadFromDisk X w r) in
  (exists old news,
     entries r' = (old ++ news)%list /\
     (old = entries r \/ old = entries r1) /\
     (news = [] \/
      exists out in_ fr,
        Method out = ReqMethod req /\ URL out = ReqURL req /\
        complete (entry_of (mkFrame ref_own ref_own out in_)) /\
        apply_filters (Filters r) (mkFrame ref_own ref_own out in_) = Returned fr /\
        news = [entry_of fr]) /\
     (Forall keeps_records (Filters r) -> Forall complete news))
  /\ (Forall complete (entries r) -> chunks_complete X w r ->
      Forall complete (entries r1)
      /\ (forall method url, Forall complete (entries (snd (Lookup X w r method url))))
      /\ (Forall keeps_records (Filters r) -> Forall complete (entries r'))).
Proof.
  intros r' r1.
  assert (forall out in_, complete (entry_of (mkFrame ref_own ref_own out in_))) as Hnew
    by (intros out in_; split; simpl; eauto).
  destruct (RoundTrip_entries w r req) as (old & news & He & Hold & Hnews).
  fold r' in He. fold r1 in Hold.
  assert (Forall keeps_records (Filters r) -> Forall complete news) as Hkept.
  { intros Hkr. destruct Hnews as [-> | (out & in_ & fr & _ & _ & Hfr & ->)]; [constructor|].
    constructor; [|constructor].
    eapply apply_filters_keeps_records; [exact Hkr | exact Hfr | apply Hnew]. }
  split.
  - exists old, news. split; [exact He|]. split; [exact Hold|]. split; [|exact Hkept].
    destruct Hnews as [-> | (out & in_ & fr & Hm & Hu & Hfr & ->)]; [left; reflexivity|].
    right. exists out, in_, fr. auto.
  - intros Hr Hu. pose proof (once_Do_complete w r Hu Hr) as Hload. fold r1 in Hload.
    split; [exact Hload|]. split.
    + intros method url. unfold Lookup.
      destruct (once_Do_loadFromDisk X w r) as [[p|] r2]; exact Hload.
    + intros Hkr. rewrite He. apply Forall_app. split; [|exact (Hkept Hkr)].
      destruct Hold as [-> | ->]; assumption.
Qed.

(** ** A chunk that does not unmarshal *)

Lemma set_entries_id r : set_entries (entries r) r = r.
Proof. destruct r; reflexivity. Qed.

Lemma load_chunks_bad i good es bad err rest r :
  Forall2 (fun chunk e => Unmarshal X chunk = inr e) good es ->
  Unmarshal X bad = inl err ->
  load_chunks X i (good ++ bad :: rest) r =
    (Some (PanicMsg ("unmarshal session " ++ pretty (i + length good)%nat ++ " from "
                     ++ Filename r ++ ": " ++ err)),
     set_entries (entries r ++ es) r).
Proof.
  intros Hgood Hbad. revert i r.
  induction Hgood as [|chunk e good es He _ IH]; intros i r; simpl.
  - rewrite Hbad, Nat.add_0_r, app_nil_r, set_entries_id. reflexivity.
  - rewrite He, IH. simpl. rewrite <- app_assoc, Nat.add_succ_r. reflexivity.
Qed.

(** C10, as amended. On the first use of a recorder that is not in
    [Passthrough] mode (where no file is read): when the backing file,
    split on the separator, has a chunk that does not unmarshal, the
    once-guarded load panics at the first such chunk, naming its position:
    no chunk is skipped. [RoundTrip] (in a mode up to [Passthrough]) and
    [Lookup] panic with it. The entries of the chunks before it are by then
    in the list and the guard is spent: the load is not run again, and the
    recorder stays with that prefix. *)
Theorem load_stops_at_first_bad_chunk w r existing good es bad err rest :
  once r = false -> RMode r <> Passthrough ->
  ReadFile w (backing_file r) = Some existing ->
  Split existing separator = (good ++ bad :: rest)%list ->
  Forall2 (fun chunk e => Unmarshal X chunk = inr e) good es ->
  Unmarshal X bad = inl err ->
  let p := PanicMsg ("unmarshal session " ++ pretty (length good) ++ " from "
                     ++ backing_file r ++ ": " ++ err) in
  let r1 := set_entries (entries r ++ es) (set_Filename (backing_file r) (set_once true r)) in
  once_Do_loadFromDisk X w r = (Some p, r1)
  /\ (forall req, (RMode r <= Passthrough)%Z -> RoundTrip X w r req = (Panicked p, (r1, w)))
  /\ (forall method url, Lookup X w r method url = (Panicked p, r1))
  /\ (forall w2, once_Do_loadFromDisk X w2 r1 = (None, r1)).
Proof.
  intros Ho Hm Hread Hsplit Hgood Hbad p r1.
  assert (once_Do_loadFromDisk X w r = (Some p, r1)) as Hload.
  { unfold once_Do_loadFromDisk, loadFromDisk. rewrite Ho. simpl.
    destruct (Z.eqb_spec (RMode r) Passthrough) as [?|_]; [contradiction|].
    subst p r1. unfold backing_file in *.
    destruct (HasSuffix (Filename r) ".yml"); simpl; rewrite Hread, Hsplit;
      rewrite (load_chunks_bad 0 good es bad err rest) by assumption; reflexivity. }
  split; [exact Hload|]. split; [|split].
  - intros req Hle. rewrite RoundTrip_unfold, Hload.
    destruct (Z.ltb_spec Passthrough (RMode r)); [lia | reflexivity].
  - intros method url. unfold Lookup. rewrite Hload. reflexivity.
  - intros w2. apply once_Do_done. reflexivity.
Qed.

(** ** The consume-once selector *)

Lemma OncePerCall_loop_pending u i es req :
  Forall (fun e => is_Some (EntryRequest e)) es ->
  OncePerCall_loop X u i es req =
  match pending X u (ReqMethod req) (ReqURL req) i es with
  | [] => (Returned (zeroEntry, false), u)
  | (p, e) :: _ => (Returned (e, true), <[p := true]> u)
  end.
Proof.
  intros Hes. revert i. induction Hes as [|e es [rq Hrq] _ IH]; intros i; simpl.
  - reflexivity.
  - unfold has_key, key_match. rewrite Hrq.
    destruct (EqualFold X (Method rq) (ReqMethod req)); simpl; [|apply IH].
    destruct (EqualFold X (URL rq) (ReqURL req)); simpl; [|apply IH].
    destruct (default false (u !! i)); simpl; [apply IH | reflexivity].
Qed.

Lemma pending_lower u method url i es :
  Forall (fun pe => (i <= fst pe)%nat) (pending X u method url i es).
Proof.
  revert i. induction es as [|e es IH]; intros i; simpl; [constructor|].
  assert (Forall (fun pe => (i <= fst pe)%nat) (pending X u method url (S i) es)) as Hrest.
  { eapply Forall_impl; [apply IH|]. simpl. intros; lia. }
  destruct (has_key X method url e && negb (default false (u !! i))); auto.
Qed.

Lemma pending_has_key u method url i es p e :
  (p, e) ∈ pending X u method url i es ->
  (i <= p)%nat /\ es !! (p - i)%nat = Some e /\ has_key X method url e = true.
Proof.
  revert i. induction es as [|e0 es IH]; intros i; simpl; [inversion 1|].
  assert ((p, e) ∈ pending X u method url (S i) es ->
          (i <= p)%nat /\ (e0 :: es) !! (p - i)%nat = Some e /\ has_key X method url e = true)
    as Hrest.
  { intros Hin. destruct (IH _ Hin) as (Hle & Hlk & Hk). repeat split; auto; [lia|].
    replace (p - i)%nat with (S (p - S i)) by lia. exact Hlk. }
  destruct (has_key X method url e0) eqn:Hk0; simpl; auto.
  destruct (default false (u !! i)); simpl; auto.
  intros Hin. apply elem_of_cons in Hin as [[= -> ->] | Hin]; auto.
  rewrite Nat.sub_diag. auto.
Qed.

Lemma pending_insert u method url i es p :
  pending X (<[p := true]> u) method url i es =
  List.filter (fun pe => negb (fst pe =? p)%nat) (pending X u method url i es).
Proof.
  revert i. induction es as [|e es IH]; intros i; simpl; [reflexivity|].
  rewrite IH. destruct (Nat.eqb_spec i p) as [-> | Hne].
  - rewrite lookup_insert_eq. simpl. rewrite andb_false_r.
    destruct (has_key X method url e && negb (default false (u !! p))); simpl;
      [rewrite Nat.eqb_refl|]; reflexivity.
  - rewrite lookup_insert_ne by auto.
    destruct (has_key X method url e && negb (default false (u !! i))); simpl; auto.
    destruct (Nat.eqb_spec i p); [contradiction|]. reflexivity.
Qed.

Lemma filter_all {A : Type} (f : A -> bool) (l : list A) :
  Forall (fun x => f x = true) l -> List.filter f l = l.
Proof.
  induction 1 as [|x l Hx _ IH]; simpl; [reflexivity|]. rewrite Hx, IH. reflexivity.
Qed.

Lemma pending_after_head u method url es p e tl :
  pending X u method url 0 es = (p, e) :: tl ->
  pending X (<[p := true]> u) method url 0 es = tl.
Proof.
  intros Hp. rewrite pending_insert, Hp. simpl. rewrite Nat.eqb_refl. simpl.
  apply filter_all.
  assert (forall i, pending X u method url i es = (p, e) :: tl ->
                    Forall (fun pe => (p < fst pe)%nat) tl) as Hsorted.
  { clear Hp. induction es as [|e0 es IH]; intros i; simpl; [discriminate|].
    destruct (has_key X method url e0 && negb (default false (u !! i))).
    - intros [= <- <- <-]. eapply Forall_impl; [apply pending_lower|]. simpl. intros; lia.
    - apply IH. }
  eapply Forall_impl; [exact (Hsorted _ Hp)|]. simpl. intros pe Hlt.
  destruct (Nat.eqb_spec (fst pe) p); [lia | reflexivity].
Qed.

Lemma pending_foreign u method url es req p e tl :
  foreign_to X method url es req ->
  pending X u (ReqMethod req) (ReqURL req) 0 es = (p, e) :: tl ->
  pending X (<[p := true]> u) method url 0 es = pending X u method url 0 es.
Proof.
  intros Hf Hp. rewrite pending_insert. apply filter_all.
  apply Forall_forall. intros [q e'] Hin. simpl.
  destruct (Nat.eqb_spec q p) as [-> | _]; [exfalso | reflexivity].
  apply pending_has_key in Hin as (_ & Hlk' & Hk').
  assert ((p, e) ∈ pending X u (ReqMethod req) (ReqURL req) 0 es) as Hin
    by (rewrite Hp; left).
  apply pending_has_key in Hin as (_ & Hlk & Hk).
  assert (e' = e) as -> by congruence.
  unfold foreign_to in Hf. rewrite Forall_forall in Hf.
  assert (e ∈ es) as He by (eapply list_elem_of_lookup_2; exact Hlk).
  specialize (Hf e He Hk'). congruence.
Qed.

Lemma pending_fresh method url es :
  map snd (pending X ∅ method url 0 es) = List.filter (has_key X method url) es.
Proof.
  generalize 0%nat. induction es as [|e es IH]; intros i; simpl; [reflexivity|].
  rewrite lookup_empty. simpl. rewrite andb_true_r.
  destruct (has_key X method url e); simpl; rewrite IH; reflexivity.
Qed.

Lemma handed_out_nil c :
  handed_out (S c) [] = Returned (zeroEntry, false) :: handed_out c [].
Proof. unfold handed_out. rewrite !take_nil. simpl. rewrite Nat.sub_0_r. reflexivity. Qed.

Lemma handed_out_cons c e l :
  handed_out (S c) (e :: l) = Returned (e, true) :: handed_out c l.
Proof. reflexivity. Qed.

Lemma key_match_fold rq m u m' u' :
  (forall a b, EqualFold X a b = true -> EqualFold X b a = true) ->
  (forall a b c, EqualFold X a b = true -> EqualFold X b c = true ->
                 EqualFold X a c = true) ->
  EqualFold X m m' = true -> EqualFold X u u' = true ->
  key_match X rq m u = key_match X rq m' u'.
Proof.
  intros Hsym Htrans Hm Hu. unfold key_match.
  assert (forall a b c, EqualFold X b c = true -> EqualFold X a b = EqualFold X a c) as Hrw.
  { intros a b c Hbc. destruct (EqualFold X a b) eqn:E1, (EqualFold X a c) eqn:E2; auto.
    - rewrite (Htrans a b c) in E2; auto.
    - rewrite (Htrans a c b) in E1; auto. }
  rewrite (Hrw _ _ _ Hm), (Hrw _ _ _ Hu). reflexivity.
Qed.

Lemma pending_fold u m v m' v' i es :
  (forall a b, EqualFold X a b = true -> EqualFold X b a = true) ->
  (forall a b c, EqualFold X a b = true -> EqualFold X b c = true ->
                 EqualFold X a c = true) ->
  EqualFold X m m' = true -> EqualFold X v v' = true ->
  pending X u m v i es = pending X u m' v' i es.
Proof.
  intros Hsym Htrans Hm Hv. revert i. induction es as [|e es IH]; intros i; simpl;
    [reflexivity|].
  assert (has_key X m v e = has_key X m' v' e) as ->.
  { unfold has_key. destruct (EntryRequest e); [|reflexivity].
    apply key_match_fold; assumption. }
  rewrite IH. reflexivity.
Qed.

(** When [EqualFold] is symmetric and transitive, as Go's is, a request
    whose method and URL do not both fold to the key's is foreign to it. *)
Lemma different_key_foreign method url es req :
  (forall a b, EqualFold X a b = true -> EqualFold X b a = true) ->
  (forall a b c, EqualFold X a b = true -> EqualFold X b c = true ->
                 EqualFold X a c = true) ->
  EqualFold X (ReqMethod req) method && EqualFold X (ReqURL req) url = false ->
  foreign_to X method url es req.
Proof.
  intros Hsym Htrans Hne. apply Forall_forall. intros e _. unfold has_key, key_match.
  destruct (EntryRequest e) as [rq|]; [|discriminate].
  intros Hk. apply andb_prop in Hk as [Hm Hu].
  destruct (EqualFold X (Method rq) (ReqMethod req)) eqn:Hm'; [|reflexivity].
  destruct (EqualFold X (URL rq) (ReqURL req)) eqn:Hu'; [|reflexivity].
  rewrite (Htrans _ _ _ (Hsym _ _ Hm') Hm), (Htrans _ _ _ (Hsym _ _ Hu') Hu) in Hne.
  discriminate.
Qed.

Lemma select_each_pending method url es reqs s :
  (forall a b, EqualFold X a b = true -> EqualFold X b a = true) ->
  (forall a b c, EqualFold X a b = true -> EqualFold X b c = true ->
                 EqualFold X a c = true) ->
  Forall (fun e => is_Some (EntryRequest e)) es ->
  answers_for X method url reqs (fst (select_each X s es reqs)) =
  handed_out (length (List.filter (for_key X method url) reqs))
             (map snd (pending X (used_map s) method url 0 es)).
Proof.
  intros Hsym Htrans Hes. revert s.
  induction reqs as [|req reqs IH]; intros s; simpl.
  - reflexivity.
  - unfold OncePerCall_Select. fold (used_map s).
    rewrite (OncePerCall_loop_pending _ _ _ _ Hes).
    destruct (for_key X method url req) eqn:Hfk.
    + apply andb_prop in Hfk as [Hm Hu].
      rewrite (pending_fold _ _ _ method url _ _ Hsym Htrans Hm Hu).
      destruct (pending X (used_map s) method url 0 es) as [|[p e] tl] eqn:Hp.
      * specialize (IH (mkOncePerCall (Some (used_map s)))).
        destruct (select_each X (mkOncePerCall (Some (used_map s))) es reqs) as [more s''].
        simpl in IH |- *. rewrite IH. unfold used_map at 1. simpl. rewrite Hp.
        simpl. rewrite handed_out_nil. reflexivity.
      * specialize (IH (mkOncePerCall (Some (<[p := true]> (used_map s))))).
        destruct (select_each X (mkOncePerCall (Some (<[p := true]> (used_map s)))) es reqs)
          as [more s''].
        simpl in IH |- *. rewrite IH. unfold used_map at 1. simpl.
        rewrite (pending_after_head _ _ _ _ _ _ _ Hp). rewrite handed_out_cons.
        reflexivity.
    + pose proof (different_key_foreign method url es req Hsym Htrans Hfk) as Hforeign.
      destruct (pending X (used_map s) (ReqMethod req) (ReqURL req) 0 es) as [|[p e] tl] eqn:Hp.
      * specialize (IH (mkOncePerCall (Some (used_map s)))).
        destruct (select_each X (mkOncePerCall (Some (used_map s))) es reqs) as [more s''].
        simpl in IH |- *. rewrite IH. reflexivity.
      * specialize (IH (mkOncePerCall (Some (<[p := true]> (used_map s))))).
        destruct (select_each X (mkOncePerCall (Some (<[p := true]> (used_map s)))) es reqs)
          as [more s''].
        simpl in IH |- *. rewrite IH. unfold used_map at 1. simpl.
        rewrite (pending_foreign _ _ _ _ _ _ _ _ Hforeign Hp). reflexivity.
Qed.

(** C6, as amended. Take a fixed list of entries, each with a request
    record, and a fresh [OncePerCall]; let [N] entries have the key, up to
    [EqualFold]. Over any run of [Select] calls, whatever the requests, the
    calls whose method and URL fold to the key get, in order, the entries
    with the key in list order, each with [true], and from the [N+1]-th on
    [(Entry{}, false)]: the calls for other keys use up nothing of the
    key's. [EqualFold] is symmetric and transitive, as Go's is. *)
Theorem OncePerCall_consumes_once method url es reqs :
  (forall a b, EqualFold X a b = true -> EqualFold X b a = true) ->
  (forall a b c, EqualFold X a b = true -> EqualFold X b c = true ->
                 EqualFold X a c = true) ->
  Forall (fun e => is_Some (EntryRequest e)) es ->
  answers_for X method url reqs (fst (select_each X (mkOncePerCall None) es reqs)) =
  handed_out (length (List.filter (for_key X method url) reqs))
             (List.filter (has_key X method url) es).
Proof.
  intros Hsym Htrans Hes.
  rewrite (select_each_pending method url es reqs _ Hsym Htrans Hes).
  unfold used_map. simpl. rewrite pending_fresh. reflexivity.
Qed.

End Properties.

(** * Further properties of the transport *)

Section Further.

Variable X : Externals.
Context {Sel : Type} `{!Selector Sel}.

Implicit Types (r : Recorder Sel) (w : World) (req : HttpRequest) (e : Entry).

(** ** What every call keeps *)

Lemma load_chunks_prefix i values r :
  entries r `prefix_of` entries (snd (load_chunks X i values r)).
Proof.
  revert i r. induction values as [|val rest IH]; intros i r; simpl.
  - exists []. rewrite app_nil_r. reflexivity.
  - destruct (Unmarshal X val) as [err|e]; simpl.
    + exists []. rewrite app_nil_r. reflexivity.
    + destruct (IH (S i) (set_entries (entries r ++ [e]) r)) as [k Hk]. simpl in Hk.
      exists (e :: k). rewrite Hk, <- app_assoc. reflexivity.
Qed.

Lemma once_Do_prefix w r :
  entries r `prefix_of` entries (snd (once_Do_loadFromDisk X w r)).
Proof.
  unfold once_Do_loadFromDisk. destruct (once r); [reflexivity|].
  unfold loadFromDisk. simpl. destruct (RMode r =? Passthrough)%Z; [reflexivity|].
  destruct (HasSuffix (Filename r) ".yml"); simpl;
    match goal with |- context [ReadFile w ?f] => destruct (ReadFile w f) end;
    simpl; try reflexivity;
    first [ exact (load_chunks_prefix 0 _ (set_once true r))
          | exact (load_chunks_prefix 0 _
                     (set_Filename (Filename r ++ ".yml") (set_once true r))) ].
Qed.

(** The replay block leaves the world and the entries alone, and in
    [ReplayOnly] it does not fall through. *)
Lemma replay_outcome_frame w r req o r2 w2 :
  replay_outcome X w r req = (o, (r2, w2)) ->
  w2 = w /\ entries r2 = entries r /\ RMode r2 = RMode r /\ Filters r2 = Filters r /\
  index r2 = index r /\ once r2 = once r /\ Filename r2 = Filename r /\
  (RSelector r = None -> r2 = r) /\
  (RMode r = RecordAll \/ RMode r = Passthrough -> r2 = r /\ o = Next tt) /\
  (RMode r = ReplayOnly -> forall x, o <> Next x).
Proof.
  unfold replay_outcome.
  destruct ((RMode r =? Auto)%Z || (RMode r =? ReplayOnly)%Z) eqn:Hmode.
  - destruct (select_for X r req) as [res r3] eqn:Hs.
    assert (RSelector r = None -> r3 = r) as Hnone.
    { intros Hn. unfold select_for in Hs. rewrite Hn in Hs. congruence. }
    apply select_for_fields in Hs as (Hfn & Hm & Hf & _ & Ho & Hi & He).
    assert (~ (RMode r = RecordAll \/ RMode r = Passthrough)) as Hnot.
    { intros [Hr | Hr]; rewrite Hr in Hmode; discriminate. }
    destruct res as [[e [|]]|p].
    + destruct (EntryResponse e); intros [= <- <- <-];
        repeat split; auto; try tauto; intros; discriminate.
    + destruct (Z.eqb_spec (RMode r) ReplayOnly) as [Hro | Hro]; intros [= <- <- <-];
        repeat split; auto; try tauto; try (intros; discriminate).
    + intros [= <- <- <-]. repeat split; auto; try tauto; intros; discriminate.
  - intros [= <- <- <-]. repeat split; auto.
    intros Hro. rewrite Hro in Hmode. discriminate.
Qed.

(** The live path sends at most one request, and it is the caller's with
    the body copied. *)
Lemma construct_request_body req (st st' : Recorder Sel * World) q out :
  construct_request req st = (Next (q, out), st') -> reads_as (ReqBody req) (Body out).
Proof.
  unfold construct_request. intros H. apply bind_inv in H.
  assert (forall (b : string) (st0 : Recorder Sel * World),
    (hs ← call (flattenHeader (ReqHeader req));
     hs' ← call (copy_first_values (ReqHeader req) hs);
     mret (mkHttpRequest (ReqMethod req) (ReqURL req) (ReqHeader req) (Some (NopCloser b)),
           mkRequest (ReqMethod req) (ReqURL req) hs' b)) st0 = (Next (q, out), st') ->
    Body out = b) as Hrest.
  { clear H. intros b st0 H. apply bind_inv in H.
    destruct (call (flattenHeader (ReqHeader req)) st0) as [[hs|v|p] st1];
      [| destruct H; discriminate ..].
    apply bind_inv in H.
    destruct (call (copy_first_values (ReqHeader req) hs) st1) as [[hs'|v|p] st2];
      [| destruct H; discriminate ..].
    injection H as <- <- _. reflexivity. }
  unfold reads_as. destruct (ReqBody req) as [b|].
  - simpl in H. unfold mbind at 1 in H. unfold M_bind at 1 in H.
    destruct (read_err b) as [msg|]; simpl in H; [destruct H; discriminate|].
    apply Hrest in H. auto.
  - simpl in H. apply Hrest in H. exact H.
Qed.

Lemma live_net req r w o r' w' :
  live X req (r, w) = (o, (r', w')) ->
  net w' = net w \/
  exists b, reads_as (ReqBody req) b /\ net w' = (net w ++ [outgoing req b])%list.
Proof.
  unfold live. intros H. apply bind_inv in H.
  destruct (default_transport_spec X r w) as (t & r0 & Ht & _). rewrite Ht in H. clear Ht.
  apply bind_inv in H.
  destruct (construct_request req (r0, w)) as [[[q out]|v|p] st1] eqn:E;
    [pose proof (construct_request_body _ _ _ _ _ E) as Hbody | |];
    apply construct_request_spec in E as (-> & _ & Hq);
    [| destruct H as [_ [= _ ->]]; left; reflexivity ..].
  destruct (Hq q out eq_refl) as (_ & _ & ->). clear Hq.
  apply bind_inv in H; simpl in H. apply bind_inv in H.
  match type of H with context [send_request t ?q0 _] => set (q := q0) in * end.
  assert (forall w2, net w2 = (net w ++ [q])%list ->
                     net w2 = net w \/
                     exists b, reads_as (ReqBody req) b /\
                               net w2 = (net w ++ [outgoing req b])%list)
    as Hsent by (intros w2 ->; right; exists (Body out); split; [exact Hbody | reflexivity]).
  destruct (send_request t q (r0, w)) as [[resp0|v|p] st1] eqn:E;
    apply send_request_spec in E as (-> & _);
    [| destruct H as [_ [= _ ->]]; apply Hsent; reflexivity ..].
  apply bind_inv in H.
  match type of H with context [construct_response resp0 ?s] =>
    destruct (construct_response resp0 s) as [[in_|v|p] st1] eqn:E;
    apply construct_response_spec in E as (-> & _);
    [| destruct H as [_ [= _ ->]]; apply Hsent; reflexivity ..]
  end.
  apply bind_inv in H; simpl in H. apply bind_inv in H.
  match type of H with context [call ?x ?s] =>
    destruct (call x s) as [[fr|v|p] st1] eqn:E;
    apply call_spec in E as (-> & _ & _);
    [| destruct H as [_ [= _ ->]]; apply Hsent; reflexivity ..]
  end.
  apply bind_inv in H; simpl in H. apply bind_inv in H.
  destruct ((RMode r0 =? Auto)%Z || (RMode r0 =? RecordAll)%Z).
  - match type of H with context [save_to_disk X ?n ?e (?r2, ?w2)] =>
      destruct (save_to_disk X n e (r2, w2)) as [[[]|v|p] [r3 w3]] eqn:E;
      apply save_to_disk_spec in E as (_ & _ & _ & _ & Hnet & _); simpl in Hnet
    end.
    + injection H as _ _ <-. apply Hsent. exact Hnet.
    + destruct H as [_ [= _ ->]]. apply Hsent. exact Hnet.
    + destruct H as [_ [= _ ->]]. apply Hsent. exact Hnet.
  - simpl in H. injection H as _ _ <-. apply Hsent. reflexivity.
Qed.

(** [RoundTrip] through its stages, whatever way it ends. *)
Lemma RoundTrip_frame w r req :
  let out := RoundTrip X w r req in
  RMode (fst (snd out)) = RMode r /\ Filters (fst (snd out)) = Filters r /\
  entries r `prefix_of` entries (fst (snd out)) /\
  fault (snd (snd out)) = fault w /\
  (net (snd (snd out)) = net w \/
   exists b, reads_as (ReqBody req) b /\
             net (snd (snd out)) = (net w ++ [outgoing req b])%list).
Proof.
  simpl. rewrite RoundTrip_unfold.
  destruct (Passthrough <? RMode r)%Z; [simpl; repeat split; auto|].
  pose proof (once_Do_prefix w r) as Hpre.
  destruct (once_Do_loadFromDisk X w r) as [[p|] r1] eqn:Hl; simpl in Hpre;
    apply once_Do_fields in Hl as (Hm1 & Hf1 & _); [simpl; repeat split; auto|].
  destruct (replay_outcome X w r1 req) as [o [r2 w2]] eqn:Hro.
  apply replay_outcome_frame in Hro as (-> & He2 & Hm2 & Hf2 & _).
  assert (entries r `prefix_of` entries r2) as Hpre2 by (rewrite He2; exact Hpre).
  destruct o as [[]|v|p]; [|simpl; repeat split; auto; congruence ..].
  destruct (live X req (r2, w)) as [o' [r3 w3]] eqn:Hlive.
  pose proof (live_net _ _ _ _ _ _ Hlive) as Hnet.
  apply live_spec in Hlive as (_ & (_ & Hm3 & Hf3 & _) & Hfault & _ & Hcases).
  assert (entries r `prefix_of` entries r3) as Hpre3.
  { destruct Hcases as [(-> & _) | (_ & _ & fr & _ & _ & _ & -> & _)]; auto.
    destruct Hpre2 as [k ->]. exists (k ++ [entry_of fr])%list.
    rewrite app_assoc. reflexivity. }
  destruct o'; simpl; repeat split; auto; congruence.
Qed.

(** X1. [RoundTrip] never changes the mode or the filters and never drops
    or reorders an entry: the entries it started with are a prefix of the
    entries it leaves, however it ends. [Lookup] likewise. *)
Theorem entries_only_grow w r req method url :
  (let r' := fst (snd (RoundTrip X w r req)) in
   entries r `prefix_of` entries r' /\ RMode r' = RMode r /\ Filters r' = Filters r)
  /\
  (let r' := snd (Lookup X w r method url) in
   entries r `prefix_of` entries r' /\ RMode r' = RMode r /\ Filters r' = Filters r).
Proof.
  split.
  - destruct (RoundTrip_frame w r req) as (Hm & Hf & Hp & _). simpl. auto.
  - simpl. unfold Lookup. pose proof (once_Do_prefix w r) as Hp.
    destruct (once_Do_loadFromDisk X w r) as [[p|] r1] eqn:Hl; simpl in *;
      apply once_Do_fields in Hl as (Hm & Hf & _); auto.
Qed.

(** X2. One [RoundTrip] calls the transport at most once, in any mode and
    however it ends: the requests sent are those sent before, followed by
    at most one, which is the caller's request (method, URL, header) with a
    body that holds what the caller's body read to the end gives (nothing
    for a nil body). *)
Theorem RoundTrip_sends_at_most_once w r req :
  let w' := snd (snd (RoundTrip X w r req)) in
  net w' = net w \/
  exists b, reads_as (ReqBody req) b /\ net w' = (net w ++ [outgoing req b])%list.
Proof. destruct (RoundTrip_frame w r req) as (_ & _ & _ & _ & Hnet). exact Hnet. Qed.

(** X3. In [ReplayOnly] mode [RoundTrip] leaves the world as it is, however
    it ends (entry found, none found, or a panic): nothing is sent and no
    file is written; and it appends nothing to what the load left. *)
Theorem ReplayOnly_leaves_world w r req :
  RMode r = ReplayOnly ->
  snd (snd (RoundTrip X w r req)) = w /\
  entries (fst (snd (RoundTrip X w r req))) = entries (snd (once_Do_loadFromDisk X w r)) /\
  index (fst (snd (RoundTrip X w r req))) = index r.
Proof.
  intros Hm. rewrite RoundTrip_unfold, Hm. simpl.
  destruct (once_Do_loadFromDisk X w r) as [[p|] r1] eqn:Hl; simpl;
    apply once_Do_fields in Hl as (Hm1 & _ & _ & _ & _ & Hi1); auto.
  destruct (replay_outcome X w r1 req) as [o [r2 w2]] eqn:Hro.
  apply replay_outcome_frame in Hro as (-> & He & _ & _ & Hi & _ & _ & _ & _ & Hno).
  rewrite Hm1, Hm in Hno. specialize (Hno eq_refl).
  destruct o as [[]|v|p]; simpl; [exfalso; eapply Hno; reflexivity | |];
    repeat split; auto; congruence.
Qed.

(** X4. In [Record] mode [RoundTrip] does not consult the selector or the
    entries: the selector is left as it was, and a call that comes back
    with a response has sent the request and appended one entry to what the
    load left, whether or not an entry for the request was there. *)
Theorem Record_always_goes_live w r req res r' w' :
  RMode r = RecordAll ->
  RoundTrip X w r req = (res, (r', w')) ->
  RSelector r' = RSelector r /\
  (forall resp, res = Returned (inr resp) ->
     exists b fr,
       net w' = (net w ++ [outgoing req b])%list /\
       entries r' = (entries (snd (once_Do_loadFromDisk X w r)) ++ [entry_of fr])%list /\
       resp = make_response X (in_rec fr)).
Proof.
  intros Hm H. rewrite RoundTrip_unfold, Hm in H. simpl in H.
  destruct (once_Do_loadFromDisk X w r) as [[p|] r1] eqn:Hl; simpl;
    pose proof (once_Do_fields _ _ _ _ _ Hl) as (Hm1 & _ & _ & Hs1 & _).
  { injection H as <- <- <-. split; [exact Hs1 | discriminate]. }
  destruct (replay_outcome X w r1 req) as [o [r2 w2]] eqn:Hro.
  apply replay_outcome_frame in Hro as (-> & _ & _ & _ & _ & _ & _ & _ & Hlive & _).
  destruct Hlive as [-> ->]; [left; congruence|].
  destruct (live X req (r1, w)) as [o' [r3 w3]] eqn:Hlive.
  apply live_spec in Hlive as (Hn & (_ & _ & _ & Hs3 & _) & _ & _ & Hcases).
  assert (r3 = r' /\ w3 = w') as [-> ->] by (destruct o'; injection H; auto).
  split; [congruence|]. intros resp ->.
  assert (o' = Next resp) as ->.
  { destruct o' as [resp0|v|p]; [congruence| |discriminate].
    injection H as ->. destruct (Hn _ eq_refl). discriminate. }
  destruct Hcases as [(_ & Hno & _) | (out & in_ & fr & _ & _ & _ & He & Hnet & Hresp)];
    [exfalso; eapply Hno; reflexivity|].
  exists (Body out), fr. repeat split; auto.
Qed.

(** ** The live path, forwards *)

Let St : Type := (Recorder Sel * World)%type.

Lemma RoundTrip_goes_live w r req r2 :
  goes_live X w r req r2 ->
  RoundTrip X w r req = finish (live X req (r2, w)).
Proof.
  intros (r1 & Hl & Hcase). rewrite RoundTrip_unfold.
  pose proof (once_Do_fields _ _ _ _ _ Hl) as (Hm1 & _).
  assert ((Passthrough <? RMode r)%Z = false) as ->.
  { destruct Hcase as [[[-> | ->] _] | [-> _]]; reflexivity. }
  rewrite Hl. unfold replay_outcome. rewrite Hm1.
  destruct Hcase as [[Hm ->] | [Hm [e Hs]]].
  - assert ((RMode r =? Auto)%Z || (RMode r =? ReplayOnly)%Z = false) as ->
      by (destruct Hm as [-> | ->]; reflexivity).
    unfold finish. destruct (live X req (r1, w)) as [[resp|v|p] st]; reflexivity.
  - rewrite Hm, Hs. simpl.
    unfold finish. destruct (live X req (r2, w)) as [[resp|v|p] st]; reflexivity.
Qed.

Lemma flattenHeader_first_values h :
  no_empty_value h -> flattenHeader h = Returned (first_values h).
Proof.
  intros Hh. unfold flattenHeader. destruct (decide _); [reflexivity | contradiction].
Qed.

Lemma copy_first_values_again h :
  no_empty_value h -> copy_first_values h (first_values h) = Returned (first_values h).
Proof.
  intros Hh. unfold copy_first_values. destruct (decide _); [|contradiction].
  f_equal. apply map_eq. intros k. rewrite lookup_union.
  unfold first_values. destruct (omap head h !! k); reflexivity.
Qed.

Lemma default_transport_forward r w :
  default_transport X (r, w) = (Next (transport_of X r), (with_transport X r, w)).
Proof.
  unfold default_transport, transport_of, with_transport, mbind, M_bind, get_r. simpl.
  destruct (Transport r); reflexivity.
Qed.

Lemma construct_request_forward req b (st : St) :
  reads_as (ReqBody req) b -> no_empty_value (ReqHeader req) ->
  construct_request req st = (Next (outgoing req b, recorded_request req b), st).
Proof.
  intros Hb Hh. unfold construct_request, reads_as in *.
  assert ((match ReqBody req with
           | None => mret ""
           | Some b0 => check (read_err b0);; mret (content b0)
           end : M string) st = (Next b, st)) as Hbody.
  { destruct (ReqBody req) as [rc|]; [destruct Hb as [Hr <-] | subst b].
    - unfold mbind, M_bind. rewrite Hr. reflexivity.
    - reflexivity. }
  unfold mbind at 1. unfold M_bind at 1. rewrite Hbody.
  unfold mbind at 1. unfold M_bind at 1. rewrite flattenHeader_first_values by assumption.
  simpl. unfold mbind at 1. unfold M_bind at 1.
  rewrite copy_first_values_again by assumption. reflexivity.
Qed.

Lemma construct_response_forward resp (st : St) :
  no_empty_value (Header resp) ->
  read_err (HttpBody resp) = None -> close_err (HttpBody resp) = None ->
  construct_response resp st = (Next (recorded_response resp), st).
Proof.
  intros Hh Hr Hc. unfold construct_response.
  unfold mbind at 1. unfold M_bind at 1. rewrite flattenHeader_first_values by assumption.
  simpl. unfold mbind, M_bind. rewrite Hr, Hc. reflexivity.
Qed.

(** What the live path comes to when the exchange goes through and the
    filters return: the request is sent, the entry appended, and the rest is
    the write, in [Auto] and [Record] mode. *)
Lemma live_answered r w req b resp fr :
  answered X r w req b resp ->
  apply_filters (Filters r) (fresh_frame req b resp) = Returned fr ->
  live X req (r, w) =
  let ra := set_entries (entries r ++ [entry_of fr]) (with_transport X r) in
  let ws := mkWorld (files w) (net w ++ [outgoing req b]) (fault w) in
  if (RMode r =? Auto)%Z || (RMode r =? RecordAll)%Z then
    match save_to_disk X (length (net w)) (entry_of fr) (ra, ws) with
    | (Next _, st) => (Next (make_response X (in_rec fr)), st)
    | (Return v, st) => (Return v, st)
    | (Panic p, st) => (Panic p, st)
    end
  else (Next (make_response X (in_rec fr)), (ra, ws)).
Proof.
  intros (Hb & Hh & Ht & Hrh & Hrr & Hrc) Hfr. unfold live.
  unfold mbind at 1. unfold M_bind at 1. rewrite default_transport_forward.
  unfold mbind at 1. unfold M_bind at 1.
  rewrite (construct_request_forward req b) by assumption.
  unfold mbind at 1. unfold M_bind at 1. unfold get_w at 1. simpl.
  unfold mbind at 1. unfold M_bind at 1.
  assert (send_request (transport_of X r) (outgoing req b) (with_transport X r, w) =
          (Next resp, (with_transport X r,
                       mkWorld (files w) (net w ++ [outgoing req b]) (fault w)))) as ->.
  { unfold send_request, mbind, M_bind, get_w, modify_w. simpl. rewrite Ht. reflexivity. }
  unfold mbind at 1. unfold M_bind at 1.
  rewrite construct_response_forward by assumption.
  unfold mbind at 1. unfold M_bind at 1. unfold get_r at 1. simpl.
  assert (Filters (with_transport X r) = Filters r) as ->
    by (unfold with_transport; destruct (Transport r); reflexivity).
  assert (RMode (with_transport X r) = RMode r) as ->
    by (unfold with_transport; destruct (Transport r); reflexivity).
  unfold fresh_frame in Hfr.
  unfold mbind at 1. unfold M_bind at 1. rewrite Hfr. simpl.
  unfold mbind at 1. unfold M_bind at 1. unfold modify_r at 1. simpl.
  assert (entries (with_transport X r) = entries r) as ->
    by (unfold with_transport; destruct (Transport r); reflexivity).
  destruct ((RMode r =? Auto)%Z || (RMode r =? RecordAll)%Z).
  - unfold mbind at 1. unfold M_bind at 1.
    match goal with |- context [save_to_disk X ?n ?e ?s] =>
      destruct (save_to_disk X n e s) as [[[]|v|p] st]; reflexivity end.
  - reflexivity.
Qed.

Lemma with_transport_fields r :
  Filename (with_transport X r) = Filename r /\ RMode (with_transport X r) = RMode r /\
  Filters (with_transport X r) = Filters r /\ RSelector (with_transport X r) = RSelector r /\
  once (with_transport X r) = once r /\ index (with_transport X r) = index r /\
  entries (with_transport X r) = entries r.
Proof. unfold with_transport. destruct (Transport r); repeat split. Qed.

(** ** The write *)

Lemma string_app_assoc (a b c : string) : (a ++ b) ++ c = a ++ (b ++ c).
Proof. induction a as [|x a IH]; [reflexivity|]. exact (f_equal (String x) IH). Qed.

Lemma append_file_twice name t1 t2 w :
  append_file name t2 (append_file name t1 w) = append_file name (t1 ++ t2) w.
Proof.
  unfold append_file. simpl. rewrite lookup_insert_eq, insert_insert_eq. simpl.
  rewrite string_app_assoc. reflexivity.
Qed.

Lemma int_wrap_small z : (- 2 ^ 63 <= z < 2 ^ 63)%Z -> int_wrap z = z.
Proof. intros Hz. unfold int_wrap. rewrite Z.mod_small; lia. Qed.

Lemma save_to_disk_written n e r w doc :
  writable X w (Filename r) -> Marshal X e = inr doc ->
  (index r = 0%Z \/ (0 < index r)%Z /\ is_Some (files w !! Filename r)) ->
  save_to_disk X n e (r, w) =
  (Next tt,
   (set_index (int_wrap (index r + 1)) r,
    mkWorld (<[Filename r :=
                 (if (index r =? 0)%Z then ""
                  else default "" (files w !! Filename r) ++ document_break)
                 ++ document_header X n (index r) ++ doc]> (files w))
            (net w) (fault w))).
Proof.
  intros (Hmk & Hop & Hwr & Hcl) Hdoc Hcase. unfold save_to_disk.
  unfold mbind at 1. unfold M_bind at 1. unfold get_r at 1. simpl.
  unfold mbind at 1. unfold M_bind at 1. unfold get_w at 1. simpl.
  unfold mbind at 1. unfold M_bind at 1. rewrite Hmk. simpl.
  unfold mbind at 1. unfold M_bind at 1.
  assert (OpenFile (Filename r) (index r =? 0)%Z (r, w) =
          (Next tt, (r, if (index r =? 0)%Z
                        then mkWorld (<[Filename r := ""]> (files w)) (net w) (fault w)
                        else w))) as ->.
  { unfold OpenFile, mbind, M_bind, get_w. simpl. rewrite Hop. simpl.
    destruct Hcase as [-> | [Hpos [old Hold]]]; [reflexivity|].
    destruct (Z.eqb_spec (index r) 0); [lia|]. rewrite Hold. reflexivity. }
  rewrite Hdoc. unfold mbind, M_bind, modify_w, modify_r, skip, mret, M_ret, check.
  rewrite Hwr, Hcl. unfold document_header, document_break.
  destruct Hcase as [Hi | [Hpos [old Hold]]].
  - assert ((index r =? 0)%Z = true) as -> by (rewrite Hi; reflexivity).
    assert ((0 <? index r)%Z = false) as -> by (rewrite Hi; reflexivity).
    simpl. f_equal. f_equal. unfold append_file. simpl.
    repeat (rewrite ?lookup_insert_eq, ?insert_insert_eq; simpl).
    rewrite ?string_app_assoc. reflexivity.
  - destruct (Z.eqb_spec (index r) 0); [lia|].
    destruct (Z.ltb_spec 0 (index r)); [|lia].
    simpl. f_equal. f_equal. rewrite !append_file_twice. unfold append_file. simpl.
    rewrite Hold. simpl. rewrite ?string_app_assoc. reflexivity.
Qed.

Lemma live_transport_error r w req b err :
  reads_as (ReqBody req) b -> no_empty_value (ReqHeader req) ->
  transport_of X r (net w) (outgoing req b) = inl err ->
  live X req (r, w) =
  (Return (inl err),
   (with_transport X r, mkWorld (files w) (net w ++ [outgoing req b]) (fault w))).
Proof.
  intros Hb Hh Ht. unfold live.
  unfold mbind at 1. unfold M_bind at 1. rewrite default_transport_forward.
  unfold mbind at 1. unfold M_bind at 1.
  rewrite (construct_request_forward req b) by assumption.
  unfold mbind at 1. unfold M_bind at 1. unfold get_w at 1. simpl.
  unfold mbind at 1. unfold M_bind at 1.
  unfold send_request, mbind, M_bind, get_w, modify_w. simpl. rewrite Ht. reflexivity.
Qed.

(** X5. When the transport fails, [RoundTrip] returns the transport's error
    as it is. The request has been sent, but no entry is appended, no file
    is touched and the write index stays. *)
Theorem transport_error_not_recorded w r req r2 b err :
  goes_live X w r req r2 ->
  reads_as (ReqBody req) b -> no_empty_value (ReqHeader req) ->
  transport_of X r2 (net w) (outgoing req b) = inl err ->
  exists r',
    RoundTrip X w r req =
      (Returned (inl err), (r', mkWorld (files w) (net w ++ [outgoing req b]) (fault w)))
    /\ entries r' = entries r2 /\ index r' = index r2.
Proof.
  intros Hlive Hb Hh Ht. exists (with_transport X r2).
  rewrite (RoundTrip_goes_live _ _ _ _ Hlive), (live_transport_error _ _ _ b err) by assumption.
  destruct (with_transport_fields r2) as (_ & _ & _ & _ & _ & Hi & He). auto.
Qed.

(** X6. In [Passthrough] mode, when the exchange goes through and the
    filters return, [RoundTrip] returns the response built from the record
    [in] as the filters left it, has sent the caller's request with the body
    copied, and has appended the entry the filters left of the request
    (method, URL, first value of every header, body) and the response
    (status, first value of every header, body). The files are as they
    were. *)
Theorem Passthrough_records_exchange w r req b resp fr :
  RMode r = Passthrough ->
  answered X r w req b resp ->
  apply_filters (Filters r) (fresh_frame req b resp) = Returned fr ->
  RoundTrip X w r req =
    (Returned (inr (make_response X (in_rec fr))),
     (set_entries (entries r ++ [entry_of fr]) (with_transport X (set_once true r)),
      mkWorld (files w) (net w ++ [outgoing req b]) (fault w)))
  /\ (Filters r = [] ->
      entry_of fr = mkEntry (Some (recorded_request req b)) (Some (recorded_response resp))).
Proof.
  intros Hm Hans Hfr. split.
  - assert (goes_live X w r req (set_once true r)) as Hlive.
    { exists (set_once true r). split; [|left; auto].
      unfold once_Do_loadFromDisk, loadFromDisk. simpl. rewrite Hm. simpl.
      destruct r as [fn md fl tr sl [|] ix es]; reflexivity. }
    rewrite (RoundTrip_goes_live _ _ _ _ Hlive).
    rewrite (live_answered (set_once true r) w req b resp fr); auto.
    simpl. rewrite Hm. reflexivity.
  - intros Hnil. rewrite Hnil in Hfr. injection Hfr as <-. reflexivity.
Qed.

(** X7. In [Auto] and [Record] mode, the first write of a recorder (write
    index 0) replaces the backing file: after an exchange that goes through,
    with every file-system call and the serializer succeeding, the file
    holds the comment lines for request 0 and the document, whatever it held
    before, and the write index is 1. *)
Theorem first_write_replaces_file w r req r2 b resp fr doc :
  goes_live X w r req r2 -> RMode r <> Passthrough ->
  index r2 = 0%Z ->
  answered X r2 w req b resp ->
  apply_filters (Filters r2) (fresh_frame req b resp) = Returned fr ->
  Marshal X (entry_of fr) = inr doc ->
  writable X w (Filename r2) ->
  exists r',
    RoundTrip X w r req =
      (Returned (inr (make_response X (in_rec fr))),
       (r', mkWorld (<[Filename r2 := document_header X (length (net w)) 0 ++ doc]> (files w))
                    (net w ++ [outgoing req b]) (fault w)))
    /\ index r' = 1%Z
    /\ entries r' = (entries r2 ++ [entry_of fr])%list.
Proof.
  intros Hlive Hnp Hi Hans Hfr Hdoc Hwr.
  assert ((RMode r2 =? Auto)%Z || (RMode r2 =? RecordAll)%Z = true) as Hmode.
  { destruct Hlive as (r1 & Hl & Hcase).
    apply once_Do_fields in Hl as (Hm1 & _).
    destruct Hcase as [[[Hm | Hm] ->] | [Hm [e Hs]]].
    - rewrite Hm1, Hm. reflexivity.
    - contradiction.
    - apply select_for_fields in Hs as (_ & Hm2 & _). rewrite Hm2, Hm1, Hm. reflexivity. }
  destruct (with_transport_fields r2) as (Hfn & _ & _ & _ & _ & Hix & He).
  exists (set_index 1 (set_entries (entries r2 ++ [entry_of fr]) (with_transport X r2))).
  rewrite (RoundTrip_goes_live _ _ _ _ Hlive).
  rewrite (live_answered r2 w req b resp fr) by assumption. simpl. rewrite Hmode.
  rewrite (save_to_disk_written _ _ _ _ doc).
  - simpl. rewrite Hfn, Hix, Hi. split; [reflexivity | split; reflexivity].
  - simpl. rewrite Hfn. exact Hwr.
  - exact Hdoc.
  - left. simpl. rewrite Hix. exact Hi.
Qed.

(** X8. A later write (write index above 0, the file still there) adds to
    the backing file: the separator, the comment lines with the index, and
    the document follow what the file held; the write index goes up by
    one. *)
Theorem later_write_appends w r req r2 b resp fr doc old :
  goes_live X w r req r2 -> RMode r <> Passthrough ->
  (0 < index r2 < 2 ^ 63 - 1)%Z ->
  files w !! Filename r2 = Some old ->
  answered X r2 w req b resp ->
  apply_filters (Filters r2) (fresh_frame req b resp) = Returned fr ->
  Marshal X (entry_of fr) = inr doc ->
  writable X w (Filename r2) ->
  exists r',
    RoundTrip X w r req =
      (Returned (inr (make_response X (in_rec fr))),
       (r', mkWorld (<[Filename r2 :=
                         old ++ document_break
                         ++ document_header X (length (net w)) (index r2) ++ doc]> (files w))
                    (net w ++ [outgoing req b]) (fault w)))
    /\ index r' = (index r2 + 1)%Z
    /\ entries r' = (entries r2 ++ [entry_of fr])%list.
Proof.
  intros Hlive Hnp Hi Hold Hans Hfr Hdoc Hwr.
  assert ((RMode r2 =? Auto)%Z || (RMode r2 =? RecordAll)%Z = true) as Hmode.
  { destruct Hlive as (r1 & Hl & Hcase).
    apply once_Do_fields in Hl as (Hm1 & _).
    destruct Hcase as [[[Hm | Hm] ->] | [Hm [e Hs]]].
    - rewrite Hm1, Hm. reflexivity.
    - contradiction.
    - apply select_for_fields in Hs as (_ & Hm2 & _). rewrite Hm2, Hm1, Hm. reflexivity. }
  destruct (with_transport_fields r2) as (Hfn & _ & _ & _ & _ & Hix & He).
  exists (set_index (index r2 + 1)
            (set_entries (entries r2 ++ [entry_of fr]) (with_transport X r2))).
  rewrite (RoundTrip_goes_live _ _ _ _ Hlive).
  rewrite (live_answered r2 w req b resp fr) by assumption. simpl. rewrite Hmode.
  rewrite (save_to_disk_written _ _ _ _ doc).
  - simpl. rewrite Hfn, Hix. destruct (Z.eqb_spec (index r2) 0); [lia|].
    rewrite Hold. simpl. rewrite string_app_assoc, int_wrap_small by lia.
    split; [reflexivity | split; reflexivity].
  - simpl. rewrite Hfn. exact Hwr.
  - exact Hdoc.
  - right. simpl. rewrite Hfn, Hix. split; [lia | eauto].
Qed.

(** X9. The entry is appended before the write is tried: when the
    exchange goes through and the filters return, the entry is in the list
    and the request is on the wire however the write ends; and when
    [os.MkdirAll] fails, [RoundTrip] returns that error (not the response)
    with the files and the write index untouched. *)
Theorem write_failure_keeps_entry w r req r2 b resp fr :
  goes_live X w r req r2 ->
  answered X r2 w req b resp ->
  apply_filters (Filters r2) (fresh_frame req b resp) = Returned fr ->
  let out := RoundTrip X w r req in
  entries (fst (snd out)) = (entries r2 ++ [entry_of fr])%list
  /\ net (snd (snd out)) = (net w ++ [outgoing req b])%list
  /\ (forall msg, RMode r <> Passthrough ->
        fault w (OpMkdirAll (path_Dir X (Filename r2))) = Some msg ->
        fst out = Returned (inl (ForeignError msg))
        /\ files (snd (snd out)) = files w /\ index (fst (snd out)) = index r2).
Proof.
  intros Hlive Hans Hfr. simpl.
  assert (RMode r <> Passthrough ->
          (RMode r2 =? Auto)%Z || (RMode r2 =? RecordAll)%Z = true) as Hmode.
  { intros Hnp. destruct Hlive as (r1 & Hl & Hcase).
    apply once_Do_fields in Hl as (Hm1 & _).
    destruct Hcase as [[[Hm | Hm] ->] | [Hm [e Hs]]].
    - rewrite Hm1, Hm. reflexivity.
    - contradiction.
    - apply select_for_fields in Hs as (_ & Hm2 & _). rewrite Hm2, Hm1, Hm. reflexivity. }
  destruct (with_transport_fields r2) as (Hfn & _ & _ & _ & _ & Hix & He).
  rewrite (RoundTrip_goes_live _ _ _ _ Hlive).
  rewrite (live_answered r2 w req b resp fr) by assumption. simpl.
  destruct ((RMode r2 =? Auto)%Z || (RMode r2 =? RecordAll)%Z) eqn:Hsave.
  - match goal with |- context [save_to_disk X ?n ?e (?ra, ?ws)] =>
      destruct (save_to_disk X n e (ra, ws)) as [o [r3 w3]] eqn:Hs;
      pose proof (save_to_disk_spec X _ _ _ _ _ _ Hs) as (_ & _ & He3 & _ & Hn3 & _)
    end.
    simpl in He3, Hn3.
    split; [destruct o as [[]|v|p]; exact He3|].
    split; [destruct o as [[]|v|p]; exact Hn3|].
    intros msg Hnp Hmk. unfold save_to_disk in Hs.
    unfold mbind at 1 in Hs. unfold M_bind at 1 in Hs. unfold get_r at 1 in Hs. simpl in Hs.
    unfold mbind at 1 in Hs. unfold M_bind at 1 in Hs. unfold get_w at 1 in Hs. simpl in Hs.
    unfold mbind at 1 in Hs. unfold M_bind at 1 in Hs.
    rewrite Hfn, Hmk in Hs. simpl in Hs. injection Hs as <- <- <-. simpl. auto.
  - simpl. split; [reflexivity|]. split; [reflexivity|].
    intros msg Hnp. pose proof (Hmode Hnp). congruence.
Qed.

(** ** The load *)

Lemma load_chunks_good i values es r :
  Forall2 (fun chunk e => Unmarshal X chunk = inr e) values es ->
  load_chunks X i values r = (None, set_entries (entries r ++ es) r).
Proof.
  intros Hgood. revert i r.
  induction Hgood as [|chunk e values es He _ IH]; intros i r; simpl.
  - rewrite app_nil_r, set_entries_id. reflexivity.
  - rewrite He, IH. simpl. rewrite <- app_assoc. reflexivity.
Qed.

Lemma once_Do_first w r :
  once r = false -> RMode r <> Passthrough ->
  once_Do_loadFromDisk X w r =
  match ReadFile w (backing_file r) with
  | Some existing =>
      load_chunks X 0 (Split existing separator)
        (set_Filename (backing_file r) (set_once true r))
  | None => (None, set_Filename (backing_file r) (set_once true r))
  end.
Proof.
  intros Ho Hm. unfold once_Do_loadFromDisk, loadFromDisk, backing_file. rewrite Ho. simpl.
  destruct (Z.eqb_spec (RMode r) Passthrough) as [?|_]; [contradiction|].
  destruct (HasSuffix (Filename r) ".yml"); simpl; [|reflexivity].
  destruct r as [fn md fl tr sl on ix es]; reflexivity.
Qed.

(** X10. When every chunk of the backing file unmarshals, the first use of
    a recorder (outside [Passthrough]) appends one entry per chunk, in file
    order, after the entries already there, sets the file name to the name
    it read, and does not panic. *)
Theorem load_appends_every_chunk w r existing es :
  once r = false -> RMode r <> Passthrough ->
  ReadFile w (backing_file r) = Some existing ->
  Forall2 (fun chunk e => Unmarshal X chunk = inr e) (Split existing separator) es ->
  once_Do_loadFromDisk X w r =
    (None, set_entries (entries r ++ es) (set_Filename (backing_file r) (set_once true r))).
Proof.
  intros Ho Hm Hread Hgood. rewrite once_Do_first, Hread by assumption.
  rewrite (load_chunks_good 0 _ es) by exact Hgood. reflexivity.
Qed.

(** X11. When the backing file cannot be read (it is not there, or the read
    fails), the load appends nothing and does not fail: the error of
    [ioutil.ReadFile] is dropped. A recorder without entries in [ReplayOnly]
    mode and with no selector then answers every request with
    [NoRequestError], leaving the world as it is. *)
Theorem unreadable_file_is_empty w r req :
  once r = false -> RMode r = ReplayOnly -> RSelector r = None -> entries r = [] ->
  ReadFile w (backing_file r) = None ->
  once_Do_loadFromDisk X w r = (None, set_Filename (backing_file r) (set_once true r))
  /\ RoundTrip X w r req =
       (Returned (inl (NoRequestError req)),
        (set_Filename (backing_file r) (set_once true r), w)).
Proof.
  intros Ho Hm Hs He Hread.
  assert (once_Do_loadFromDisk X w r =
          (None, set_Filename (backing_file r) (set_once true r))) as Hl.
  { rewrite once_Do_first, Hread; [reflexivity | assumption | rewrite Hm; discriminate]. }
  split; [exact Hl|].
  rewrite RoundTrip_unfold, Hm, Hl. simpl.
  unfold replay_outcome, select_for. simpl. rewrite Hm, Hs, He. reflexivity.
Qed.

Lemma string_app_cons (x : ascii) (a b : string) :
  (String x a ++ b)%string = String x (a ++ b).
Proof. reflexivity. Qed.

Lemma string_length_app (a b : string) :
  String.length (a ++ b) = (String.length a + String.length b)%nat.
Proof.
  induction a as [|x a IH]; [reflexivity|].
  rewrite string_app_cons. simpl. rewrite IH. reflexivity.
Qed.

Lemma substring_all (s : string) : substring 0 (String.length s) s = s.
Proof. induction s as [|x s IH]; simpl; [reflexivity|]. rewrite IH. reflexivity. Qed.

Lemma substring_skip (a b : string) (m : nat) :
  substring (String.length a) m (a ++ b) = substring 0 m b.
Proof.
  induction a as [|x a IH]; [reflexivity|].
  rewrite string_app_cons. simpl. exact IH.
Qed.

Lemma HasSuffix_app (s suffix : string) : HasSuffix (s ++ suffix) suffix = true.
Proof.
  unfold HasSuffix. rewrite string_length_app.
  replace (String.length s + String.length suffix - String.length suffix)%nat
    with (String.length s) by lia.
  rewrite substring_skip, substring_all, String.eqb_refl.
  destruct (Nat.leb_spec (String.length suffix) (String.length s + String.length suffix));
    [reflexivity | lia].
Qed.

(** X12. The one file the load reads is the file under the given name with
    [.yml] added when the name lacks it: that name ends in [.yml], and what
    the load does depends on the world only through what [ioutil.ReadFile]
    gives for that name. The first use of a recorder outside [Passthrough]
    leaves that name in [Filename], whether or not the load succeeds, so a
    name already normalised is left as it is. *)
Theorem backing_file_ends_in_yml w r :
  HasSuffix (backing_file r) ".yml" = true
  /\ (HasSuffix (Filename r) ".yml" = true -> backing_file r = Filename r)
  /\ (forall w', ReadFile w' (backing_file r) = ReadFile w (backing_file r) ->
        once_Do_loadFromDisk X w' r = once_Do_loadFromDisk X w r)
  /\ (once r = false -> RMode r <> Passthrough ->
      Filename (snd (once_Do_loadFromDisk X w r)) = backing_file r
      /\ backing_file (snd (once_Do_loadFromDisk X w r)) = backing_file r).
Proof.
  assert (HasSuffix (backing_file r) ".yml" = true) as Hsuf.
  { unfold backing_file. destruct (HasSuffix (Filename r) ".yml") eqn:E; [exact E|].
    apply HasSuffix_app. }
  split; [exact Hsuf|]. split; [|split].
  - unfold backing_file. intros ->. reflexivity.
  - intros w' Hread. destruct (once r) eqn:Ho; [rewrite !once_Do_done by exact Ho; reflexivity|].
    destruct (Z.eq_dec (RMode r) Passthrough) as [Hm|Hm].
    + unfold once_Do_loadFromDisk, loadFromDisk. rewrite Ho. simpl. rewrite Hm. reflexivity.
    + rewrite !once_Do_first by assumption. rewrite Hread. reflexivity.
  - intros Ho Hm.
    assert (Filename (snd (once_Do_loadFromDisk X w r)) = backing_file r) as Hfn.
    { rewrite once_Do_first by assumption.
      destruct (ReadFile w (backing_file r)) as [existing|]; [|reflexivity].
      destruct (load_chunks X 0 (Split existing separator)
                  (set_Filename (backing_file r) (set_once true r))) as [p r1] eqn:Hl.
      apply load_chunks_fields in Hl as (Hfn & _). exact Hfn. }
    split; [exact Hfn|].
    unfold backing_file at 1. rewrite Hfn, Hsuf. reflexivity.
Qed.

(** ** Headers *)


(** ** The provided filters *)

Lemma apply_provided fs out in_ :
  apply_filters (map provided_filter fs) (mkFrame ref_own ref_own out in_) =
  Returned (mkFrame ref_own ref_own
    (mkRequest (Method out) (URL out) (without (request_names fs) (Headers out)) (Body out))
    (mkResponse (StatusCode in_) (without (response_names fs) (RespHeaders in_))
       (RespBody in_))).
Proof.
  revert out in_. induction fs as [|[n|n] fs IH]; intros out in_.
  - destruct out, in_. reflexivity.
  - change (apply_filters (map provided_filter fs)
              (mkFrame ref_own ref_own
                 (mkRequest (Method out) (URL out) (delete n (Headers out)) (Body out)) in_)
            = Returned (mkFrame ref_own ref_own
                (mkRequest (Method out) (URL out)
                   (delete n (without (request_names fs) (Headers out))) (Body out))
                (mkResponse (StatusCode in_) (without (response_names fs) (RespHeaders in_))
                   (RespBody in_)))).
    rewrite IH. simpl. unfold without. rewrite delete_foldr_delete. reflexivity.
  - change (apply_filters (map provided_filter fs)
              (mkFrame ref_own ref_own out
                 (mkResponse (StatusCode in_) (delete n (RespHeaders in_)) (RespBody in_)))
            = Returned (mkFrame ref_own ref_own
                (mkRequest (Method out) (URL out) (without (request_names fs) (Headers out))
                   (Body out))
                (mkResponse (StatusCode in_)
                   (delete n (without (response_names fs) (RespHeaders in_)))
                   (RespBody in_)))).
    rewrite IH. simpl. unfold without. rewrite delete_foldr_delete. reflexivity.
Qed.

Lemma lookup_without names (h : gmap string string) k :
  without names h !! k = if decide (k ∈ names) then None else h !! k.
Proof.
  unfold without. destruct (decide (k ∈ names)).
  - apply lookup_foldr_delete. assumption.
  - apply lookup_foldr_delete_not_elem_of. assumption.
Qed.

(** Once the exchange has gone through and the filters have returned, the
    entry is in the list and the request on the wire, however the write
    ends. *)
Lemma RoundTrip_appends w r req r2 b resp fr :
  goes_live X w r req r2 ->
  answered X r2 w req b resp ->
  apply_filters (Filters r2) (fresh_frame req b resp) = Returned fr ->
  entries (fst (snd (RoundTrip X w r req))) = (entries r2 ++ [entry_of fr])%list
  /\ net (snd (snd (RoundTrip X w r req))) = (net w ++ [outgoing req b])%list.
Proof.
  intros Hlive Hans Hfr.
  rewrite (RoundTrip_goes_live _ _ _ _ Hlive).
  rewrite (live_answered r2 w req b resp fr) by assumption. simpl.
  destruct ((RMode r2 =? Auto)%Z || (RMode r2 =? RecordAll)%Z); [|split; reflexivity].
  match goal with |- context [save_to_disk X ?n ?e (?ra, ?ws)] =>
    destruct (save_to_disk X n e (ra, ws)) as [o [r3 w3]] eqn:Hs;
    apply save_to_disk_spec in Hs as (_ & _ & He3 & _ & Hn3 & _)
  end.
  simpl in He3, Hn3. destruct o as [[]|v|p]; split; assumption.
Qed.

(** X14. With filters made by [RemoveRequestHeader] and
    [RemoveResponseHeader] only, the entry a live call appends has the
    request's method, URL and body and the response's status and body as
    they were exchanged; its header maps hold the first value of every
    header of the exchange except the names removed, which are absent. The
    names are compared as they are written. *)
Theorem provided_filters_strip_headers w r req r2 b resp fs :
  goes_live X w r req r2 ->
  answered X r2 w req b resp ->
  Filters r2 = map provided_filter fs ->
  exists rq rs,
    entries (fst (snd (RoundTrip X w r req))) = (entries r2 ++ [mkEntry (Some rq) (Some rs)])%list
    /\ Method rq = ReqMethod req /\ URL rq = ReqURL req /\ Body rq = b
    /\ StatusCode rs = RespStatusCode resp /\ RespBody rs = content (HttpBody resp)
    /\ (forall k, Headers rq !! k =
                  if decide (k ∈ request_names fs) then None
                  else ReqHeader req !! k ≫= head)
    /\ (forall k, RespHeaders rs !! k =
                  if decide (k ∈ response_names fs) then None
                  else Header resp !! k ≫= head).
Proof.
  intros Hlive Hans Hfs.
  pose proof (apply_provided fs (recorded_request req b) (recorded_response resp)) as Hfr.
  rewrite <- Hfs in Hfr.
  destruct (RoundTrip_appends _ _ _ _ _ _ _ Hlive Hans Hfr) as [He _].
  eexists _, _. split; [exact He|]. simpl. repeat split.
  - intros k. rewrite lookup_without. unfold first_values. rewrite lookup_omap. reflexivity.
  - intros k. rewrite lookup_without. unfold first_values. rewrite lookup_omap. reflexivity.
Qed.

(** X15. What the provided filters leave depends only on which filters are
    in the list: lists with the same filters, in whatever order and however
    often, leave the same entry. So running the list twice is running it
    once. *)
Theorem provided_filters_order_free fs fs' out in_ :
  (forall f, f ∈ fs <-> f ∈ fs') ->
  apply_filters (map provided_filter fs) (mkFrame ref_own ref_own out in_) =
  apply_filters (map provided_filter fs') (mkFrame ref_own ref_own out in_).
Proof.
  intros Hsame. rewrite !apply_provided.
  assert (forall k, k ∈ request_names fs <-> k ∈ request_names fs') as Hreq.
  { intros k. unfold request_names. rewrite !list_elem_of_omap. split;
      intros (f & Hin & Hf); exists f; split; auto; apply Hsame; exact Hin. }
  assert (forall k, k ∈ response_names fs <-> k ∈ response_names fs') as Hresp.
  { intros k. unfold response_names. rewrite !list_elem_of_omap. split;
      intros (f & Hin & Hf); exists f; split; auto; apply Hsame; exact Hin. }
  assert (forall (h : gmap string string) l l',
            (forall k : string, k ∈ l <-> k ∈ l') -> without l h = without l' h) as Hw.
  { intros h l l' Hl. apply map_eq. intros k. rewrite !lookup_without.
    destruct (decide (k ∈ l)), (decide (k ∈ l')); try reflexivity; exfalso; firstorder. }
  rewrite (Hw _ _ _ Hreq), (Hw _ _ _ Hresp). reflexivity.
Qed.

(** ** Headers, there and back *)

Lemma fold_insert_list_to_map (canon : string -> string) (l : list (string * string))
    (acc : gmap string (list string)) :
  Forall (fun kv => canon (fst kv) = fst kv) l -> NoDup l.*1 ->
  fold_left (fun out kv => <[canon (fst kv) := [snd kv]]> out) l acc =
  list_to_map (prod_map id (fun v => [v]) <$> l) ∪ acc.
Proof.
  intros Hc. revert acc. induction Hc as [|[k v] l Hk _ IH]; intros acc Hnd; simpl.
  - rewrite (left_id_L ∅ (∪)). reflexivity.
  - simpl in Hk. rewrite Hk. apply NoDup_cons in Hnd as [Hnotin Hnd].
    rewrite IH by exact Hnd. rewrite <- insert_union_l. symmetry. apply insert_union_r.
    apply not_elem_of_list_to_map_1. rewrite <- list_fmap_compose.
    rewrite (list_fmap_ext _ fst l); [exact Hnotin|]. intros i [k' v'] _. reflexivity.
Qed.

Lemma expandHeader_canonical (h : gmap string string) :
  range_order X h ≡ₚ map_to_list h ->
  map_Forall (fun k _ => CanonicalMIMEHeaderKey X k = k) h ->
  expandHeader X h = (fun v => [v]) <$> h.
Proof.
  intros Hperm Hcanon. unfold expandHeader.
  assert (NoDup (range_order X h).*1) as Hnd.
  { rewrite Hperm. apply NoDup_fst_map_to_list. }
  rewrite fold_insert_list_to_map; [| |exact Hnd].
  - rewrite (right_id_L ∅ (∪)), list_to_map_fmap. f_equal.
    rewrite (list_to_map_proper _ (map_to_list h)); [apply list_to_map_to_list | exact Hnd | exact Hperm].
  - apply Forall_forall. intros [k v] Hin. simpl.
    apply (Hcanon k v). apply elem_of_map_to_list. rewrite <- Hperm. exact Hin.
Qed.

(** X16. A stored header map whose keys are in canonical form survives the
    way out and back: expanding it for the response and flattening that
    again returns the map, given that the range loop visits each pair of
    the map once. Every key of the expansion maps to the one stored
    value. *)
Theorem flatten_expand_header (h : gmap string string) :
  range_order X h ≡ₚ map_to_list h ->
  map_Forall (fun k _ => CanonicalMIMEHeaderKey X k = k) h ->
  flattenHeader (expandHeader X h) = Returned h
  /\ forall k, expandHeader X h !! k = (fun v => [v]) <$> h !! k.
Proof.
  intros Hperm Hcanon. rewrite expandHeader_canonical by assumption. split.
  - rewrite flattenHeader_first_values.
    + f_equal. apply map_eq. intros k. unfold first_values.
      rewrite lookup_omap, lookup_fmap. destruct (h !! k); reflexivity.
    + unfold no_empty_value. apply map_Forall_fmap. intros k v _. simpl. discriminate.
  - intros k. apply lookup_fmap.
Qed.

(** ** Selection, read backwards *)

Lemma Lookup_loop_sound es method url e ok :
  Lookup_loop X es method url = Returned (e, ok) ->
  if ok then e ∈ es /\ has_key X method url e = true
  else e = zeroEntry /\ Forall (other_key X method url) es.
Proof.
  induction es as [|e0 rest IH]; simpl.
  - intros [= <- <-]. split; [reflexivity | constructor].
  - destruct (EntryRequest e0) as [rq|] eqn:E0; [|discriminate].
    destruct (key_match X rq method url) eqn:Ek.
    + intros [= <- <-]. split; [left|]. unfold has_key. rewrite E0. exact Ek.
    + intros Hl. specialize (IH Hl). destruct ok.
      * destruct IH as [Hin Hk]. split; [right; exact Hin | exact Hk].
      * destruct IH as [-> Hall]. split; [reflexivity|].
        constructor; [exists rq; auto | exact Hall].
Qed.

(** X17. What [Lookup] returns can be relied on: an entry returned with
    [true] is in the list the load left and its request has the method and
    the URL asked for, up to [EqualFold]; [false] comes with [Entry{}] and
    means that every entry has a request with another key. A nil request
    in the way makes [Lookup] panic instead. *)
Theorem Lookup_sound w r method url e ok r1 :
  Lookup X w r method url = (Returned (e, ok), r1) ->
  r1 = snd (once_Do_loadFromDisk X w r) /\
  if ok then e ∈ entries r1 /\ has_key X method url e = true
  else e = zeroEntry /\ Forall (other_key X method url) (entries r1).
Proof.
  unfold Lookup. destruct (once_Do_loadFromDisk X w r) as [[p|] r1'] eqn:Hl; [discriminate|].
  intros [= Hloop <-]. split; [reflexivity|]. apply Lookup_loop_sound. exact Hloop.
Qed.

(** The equivalence [EqualFold] is taken to be where a property needs it. *)
(** X18. [Lookup] does not tell apart keys that [EqualFold] equates: with
    [EqualFold] symmetric and transitive, as Go's is, asking with a method
    and a URL that fold to the given ones gives the same answer and leaves
    the same recorder. *)
Theorem Lookup_case_insensitive w r m u m' u' :
  (forall a b, EqualFold X a b = true -> EqualFold X b a = true) ->
  (forall a b c, EqualFold X a b = true -> EqualFold X b c = true ->
                 EqualFold X a c = true) ->
  EqualFold X m m' = true -> EqualFold X u u' = true ->
  Lookup X w r m u = Lookup X w r m' u'.
Proof.
  intros Hsym Htrans Hm Hu. unfold Lookup.
  destruct (once_Do_loadFromDisk X w r) as [[p|] r1]; [reflexivity|]. f_equal.
  induction (entries r1) as [|e es IH]; simpl; [reflexivity|].
  destruct (EntryRequest e) as [rq|]; [|reflexivity].
  rewrite (key_match_fold X rq m u m' u') by assumption. rewrite IH. reflexivity.
Qed.

(** ** The consume-once selector, for any requests *)

Lemma OncePerCall_loop_result u i es req res u' :
  OncePerCall_loop X u i es req = (res, u') ->
  match res with
  | Returned (e, true) =>
      exists p, (i <= p < i + length es)%nat /\ es !! (p - i)%nat = Some e /\
                has_key X (ReqMethod req) (ReqURL req) e = true /\
                default false (u !! p) = false /\ u' = <[p := true]> u
  | _ => u' = u
  end.
Proof.
  revert i. induction es as [|e0 es IH]; intros i; simpl.
  - intros [= <- <-]. reflexivity.
  - assert (OncePerCall_loop X u (S i) es req = (res, u') ->
            match res with
            | Returned (e, true) =>
                exists p, (i <= p < i + S (length es))%nat /\
                          (e0 :: es) !! (p - i)%nat = Some e /\
                          has_key X (ReqMethod req) (ReqURL req) e = true /\
                          default false (u !! p) = false /\ u' = <[p := true]> u
            | _ => u' = u
            end) as Hrest.
    { intros Hl. specialize (IH _ Hl). destruct res as [[e [|]]|p]; auto.
      destruct IH as (p & Hp & Hlk & Hk & Hu & ->). exists p. repeat split; auto; try lia.
      replace (p - i)%nat with (S (p - S i)) by lia. exact Hlk. }
    destruct (EntryRequest e0) as [rq|] eqn:E0; [|intros [= <- <-]; reflexivity].
    destruct (EqualFold X (Method rq) (ReqMethod req)) eqn:Em; simpl; [|exact Hrest].
    destruct (EqualFold X (URL rq) (ReqURL req)) eqn:Eu; simpl; [|exact Hrest].
    destruct (default false (u !! i)) eqn:Ei; simpl; [exact Hrest|].
    intros [= <- <-]. exists i. rewrite Nat.sub_diag. repeat split; auto; try lia.
    unfold has_key, key_match. rewrite E0, Em, Eu. reflexivity.
Qed.

(** X19. An entry [OncePerCall.Select] hands out is an entry of the list
    given to it whose request has the method and URL of the request, up to
    [EqualFold]; its position was not marked before and is the one position
    marked by the call. A call that hands out nothing marks nothing. *)
Theorem OncePerCall_Select_sound s es req res s' :
  OncePerCall_Select X s es req = (res, s') ->
  match res with
  | Returned (e, true) =>
      exists p, es !! p = Some e /\
                has_key X (ReqMethod req) (ReqURL req) e = true /\
                default false (used_map s !! p) = false /\
                used_map s' = <[p := true]> (used_map s)
  | _ => used_map s' = used_map s
  end.
Proof.
  unfold OncePerCall_Select. fold (used_map s).
  destruct (OncePerCall_loop X (used_map s) 0 es req) as [res0 u'] eqn:Hl.
  intros [= <- <-]. apply OncePerCall_loop_result in Hl.
  destruct res0 as [[e [|]]|p]; auto.
  destruct Hl as (p & _ & Hlk & Hk & Hu & ->). exists p.
  rewrite Nat.sub_0_r in Hlk. auto.
Qed.




(** ** Failures of the bodies *)

Lemma live_request_body_error r w req rc msg :
  ReqBody req = Some rc -> read_err rc = Some msg ->
  live X req (r, w) = (Return (inl (ForeignError msg)), (with_transport X r, w)).
Proof.
  intros Hb Hr. unfold live.
  unfold mbind at 1. unfold M_bind at 1. rewrite default_transport_forward.
  unfold mbind at 1. unfold M_bind at 1.
  unfold construct_request. rewrite Hb.
  unfold mbind at 1. unfold M_bind at 1.
  unfold mbind at 1. unfold M_bind at 1. rewrite Hr. reflexivity.
Qed.

Lemma live_response_body_error r w req b resp msg :
  reads_as (ReqBody req) b -> no_empty_value (ReqHeader req) ->
  transport_of X r (net w) (outgoing req b) = inr resp ->
  no_empty_value (Header resp) ->
  (read_err (HttpBody resp) = Some msg \/
   read_err (HttpBody resp) = None /\ close_err (HttpBody resp) = Some msg) ->
  live X req (r, w) =
  (Return (inl (ForeignError msg)),
   (with_transport X r, mkWorld (files w) (net w ++ [outgoing req b]) (fault w))).
Proof.
  intros Hb Hh Ht Hrh Hfail. unfold live.
  unfold mbind at 1. unfold M_bind at 1. rewrite default_transport_forward.
  unfold mbind at 1. unfold M_bind at 1.
  rewrite (construct_request_forward req b) by assumption.
  unfold mbind at 1. unfold M_bind at 1. unfold get_w at 1. simpl.
  unfold mbind at 1. unfold M_bind at 1.
  assert (send_request (transport_of X r) (outgoing req b) (with_transport X r, w) =
          (Next resp, (with_transport X r,
                       mkWorld (files w) (net w ++ [outgoing req b]) (fault w)))) as ->.
  { unfold send_request, mbind, M_bind, get_w, modify_w. simpl. rewrite Ht. reflexivity. }
  unfold mbind at 1. unfold M_bind at 1.
  unfold construct_response.
  unfold mbind at 1. unfold M_bind at 1.
  rewrite flattenHeader_first_values by assumption. simpl.
  destruct Hfail as [Hr | [Hr Hc]].
  - unfold mbind, M_bind. rewrite Hr. reflexivity.
  - unfold mbind, M_bind. rewrite Hr, Hc. reflexivity.
Qed.

(** X21. When reading the request body fails, [RoundTrip] returns that
    error before anything is sent: the world is as it was and no entry is
    appended. *)
Theorem request_body_error_sends_nothing w r req r2 rc msg :
  goes_live X w r req r2 ->
  ReqBody req = Some rc -> read_err rc = Some msg ->
  RoundTrip X w r req = (Returned (inl (ForeignError msg)), (with_transport X r2, w))
  /\ entries (with_transport X r2) = entries r2.
Proof.
  intros Hlive Hb Hr.
  rewrite (RoundTrip_goes_live _ _ _ _ Hlive), (live_request_body_error _ _ _ rc msg)
    by assumption.
  destruct (with_transport_fields r2) as (_ & _ & _ & _ & _ & _ & He). auto.
Qed.

(** X22. When the transport answers but reading or closing the response
    body fails, [RoundTrip] returns that error and not the response: the
    request has been sent, and the exchange is not recorded, neither in the
    entries nor in the file. *)
Theorem response_body_error_not_recorded w r req r2 b resp msg :
  goes_live X w r req r2 ->
  reads_as (ReqBody req) b -> no_empty_value (ReqHeader req) ->
  transport_of X r2 (net w) (outgoing req b) = inr resp ->
  no_empty_value (Header resp) ->
  (read_err (HttpBody resp) = Some msg \/
   read_err (HttpBody resp) = None /\ close_err (HttpBody resp) = Some msg) ->
  RoundTrip X w r req =
    (Returned (inl (ForeignError msg)),
     (with_transport X r2, mkWorld (files w) (net w ++ [outgoing req b]) (fault w)))
  /\ entries (with_transport X r2) = entries r2.
Proof.
  intros Hlive Hb Hh Ht Hrh Hfail.
  rewrite (RoundTrip_goes_live _ _ _ _ Hlive),
    (live_response_body_error _ _ _ b resp msg) by assumption.
  destruct (with_transport_fields r2) as (_ & _ & _ & _ & _ & _ & He). auto.
Qed.

(** ** Failures of the write *)

Lemma goes_live_saves w r req r2 :
  goes_live X w r req r2 -> RMode r <> Passthrough ->
  (RMode r2 =? Auto)%Z || (RMode r2 =? RecordAll)%Z = true.
Proof.
  intros (r1 & Hl & Hcase) Hnp.
  apply once_Do_fields in Hl as (Hm1 & _).
  destruct Hcase as [[[Hm | Hm] ->] | [Hm [e Hs]]].
  - rewrite Hm1, Hm. reflexivity.
  - contradiction.
  - apply select_for_fields in Hs as (_ & Hm2 & _). rewrite Hm2, Hm1, Hm. reflexivity.
Qed.

Lemma save_to_disk_not_marshalled n e r w err :
  writable X w (Filename r) -> Marshal X e = inl err -> index r = 0%Z ->
  save_to_disk X n e (r, w) =
  (Return (inl (ForeignError err)),
   (set_index 1 r,
    mkWorld (<[Filename r := document_header X n 0]> (files w)) (net w) (fault w))).
Proof.
  intros (Hmk & Hop & Hwr & Hcl) Hdoc Hi. unfold save_to_disk.
  unfold mbind at 1. unfold M_bind at 1. unfold get_r at 1. simpl.
  unfold mbind at 1. unfold M_bind at 1. unfold get_w at 1. simpl.
  unfold mbind at 1. unfold M_bind at 1. rewrite Hmk. simpl.
  unfold mbind at 1. unfold M_bind at 1.
  assert (OpenFile (Filename r) (index r =? 0)%Z (r, w) =
          (Next tt, (r, mkWorld (<[Filename r := ""]> (files w)) (net w) (fault w)))) as ->.
  { unfold OpenFile, mbind, M_bind, get_w. simpl. rewrite Hop, Hi. reflexivity. }
  rewrite Hdoc. unfold mbind, M_bind, modify_w, modify_r, skip, mret, M_ret, return_.
  assert ((0 <? index r)%Z = false) as -> by (rewrite Hi; reflexivity).
  simpl. rewrite Hi. f_equal. f_equal. unfold append_file, document_header. simpl.
  repeat (rewrite ?lookup_insert_eq, ?insert_insert_eq; simpl).
  rewrite ?string_app_assoc. reflexivity.
Qed.

Lemma save_to_disk_no_file n e r w :
  fault w (OpMkdirAll (path_Dir X (Filename r))) = None ->
  (0 < index r)%Z -> files w !! Filename r = None ->
  exists err, save_to_disk X n e (r, w) = (Return (inl err), (r, w)).
Proof.
  intros Hmk Hpos Hnone. unfold save_to_disk.
  unfold mbind at 1. unfold M_bind at 1. unfold get_r at 1. simpl.
  unfold mbind at 1. unfold M_bind at 1. unfold get_w at 1. simpl.
  unfold mbind at 1. unfold M_bind at 1. rewrite Hmk. simpl.
  unfold mbind at 1. unfold M_bind at 1.
  destruct (Z.eqb_spec (index r) 0); [lia|].
  unfold OpenFile, mbind, M_bind, get_w. simpl.
  destruct (fault w (OpOpenFile (Filename r) false)) as [msg|]; simpl.
  - eexists. reflexivity.
  - rewrite Hnone. eexists. reflexivity.
Qed.

(** X23. When the serializer fails on the first write of a recorder, the
    call returns its error, but the backing file has already been emptied
    and holds the three comment lines and no document; the write index is 1
    all the same, and the entry is in the list. *)
Theorem marshal_failure_leaves_comments w r req r2 b resp fr err :
  goes_live X w r req r2 -> RMode r <> Passthrough ->
  index r2 = 0%Z ->
  answered X r2 w req b resp ->
  apply_filters (Filters r2) (fresh_frame req b resp) = Returned fr ->
  Marshal X (entry_of fr) = inl err ->
  writable X w (Filename r2) ->
  exists r',
    RoundTrip X w r req =
      (Returned (inl (ForeignError err)),
       (r', mkWorld (<[Filename r2 := document_header X (length (net w)) 0]> (files w))
                    (net w ++ [outgoing req b]) (fault w)))
    /\ index r' = 1%Z
    /\ entries r' = (entries r2 ++ [entry_of fr])%list.
Proof.
  intros Hlive Hnp Hi Hans Hfr Hdoc Hwr.
  pose proof (goes_live_saves _ _ _ _ Hlive Hnp) as Hmode.
  destruct (with_transport_fields r2) as (Hfn & _ & _ & _ & _ & Hix & He).
  exists (set_index 1 (set_entries (entries r2 ++ [entry_of fr]) (with_transport X r2))).
  rewrite (RoundTrip_goes_live _ _ _ _ Hlive).
  rewrite (live_answered r2 w req b resp fr) by assumption. simpl. rewrite Hmode.
  rewrite (save_to_disk_not_marshalled _ _ _ _ err).
  - simpl. rewrite Hfn. split; [reflexivity | split; reflexivity].
  - simpl. rewrite Hfn. exact Hwr.
  - exact Hdoc.
  - simpl. rewrite Hix. exact Hi.
Qed.

(** X24. A write after the first opens the backing file without creating
    it: when the file is gone by then, the call returns an error although
    the exchange went through. The entry is in the list, no file is made and
    the write index stays. *)
Theorem later_write_needs_file w r req r2 b resp fr :
  goes_live X w r req r2 -> RMode r <> Passthrough ->
  (0 < index r2)%Z -> files w !! Filename r2 = None ->
  answered X r2 w req b resp ->
  apply_filters (Filters r2) (fresh_frame req b resp) = Returned fr ->
  fault w (OpMkdirAll (path_Dir X (Filename r2))) = None ->
  exists err r',
    RoundTrip X w r req =
      (Returned (inl err),
       (r', mkWorld (files w) (net w ++ [outgoing req b]) (fault w)))
    /\ index r' = index r2
    /\ entries r' = (entries r2 ++ [entry_of fr])%list.
Proof.
  intros Hlive Hnp Hpos Hnone Hans Hfr Hmk.
  pose proof (goes_live_saves _ _ _ _ Hlive Hnp) as Hmode.
  destruct (with_transport_fields r2) as (Hfn & _ & _ & _ & _ & Hix & He).
  rewrite (RoundTrip_goes_live _ _ _ _ Hlive).
  rewrite (live_answered r2 w req b resp fr) by assumption. simpl. rewrite Hmode.
  match goal with |- context [save_to_disk X ?n ?e (?ra, ?ws)] =>
    destruct (save_to_disk_no_file n e ra ws) as [err Hs]
  end.
  - simpl. rewrite Hfn. exact Hmk.
  - simpl. rewrite Hix. exact Hpos.
  - simpl. rewrite Hfn. exact Hnone.
  - rewrite Hs. simpl. eexists _, _. split; [reflexivity|].
    simpl. rewrite Hix. split; reflexivity.
Qed.

(** ** What every call has in common *)

Lemma once_after_RoundTrip w r req :
  (RMode r <= Passthrough)%Z -> once (fst (snd (RoundTrip X w r req))) = true.
Proof.
  intros Hm. rewrite RoundTrip_unfold.
  destruct (Z.ltb_spec Passthrough (RMode r)); [lia|].
  destruct (once_Do_loadFromDisk X w r) as [[p|] r1] eqn:Hl;
    pose proof (once_Do_fields _ _ _ _ _ Hl) as (_ & _ & _ & _ & Ho1 & _); [exact Ho1|].
  destruct (replay_outcome X w r1 req) as [o [r2 w2]] eqn:Hro.
  apply replay_outcome_frame in Hro as (-> & _ & _ & _ & _ & Ho2 & _).
  destruct o as [[]|v|p]; simpl; try congruence.
  destruct (live X req (r2, w)) as [o' [r3 w3]] eqn:Hlive.
  apply live_spec in Hlive as (_ & (_ & _ & _ & _ & Ho3) & _).
  destruct o'; simpl; congruence.
Qed.

(** X25. The response [RoundTrip] returns is never the transport's own:
    in every mode, replayed or live, it is built from a response record, so
    its content length is the length of its body and its body reads and
    closes without error. *)
Theorem every_response_is_rebuilt w r req resp st :
  RoundTrip X w r req = (Returned (inr resp), st) ->
  (exists rs, resp = make_response X rs) /\
  ContentLength resp = Z.of_nat (String.length (content (HttpBody resp))) /\
  read_err (HttpBody resp) = None /\ close_err (HttpBody resp) = None.
Proof.
  intros H.
  assert (exists rs, resp = make_response X rs) as [rs ->];
    [|split; [eexists; reflexivity | repeat split]].
  rewrite RoundTrip_unfold in H.
  destruct (Passthrough <? RMode r)%Z; [discriminate|].
  destruct (once_Do_loadFromDisk X w r) as [[p|] r1]; [discriminate|].
  unfold replay_outcome in H.
  destruct ((RMode r1 =? Auto)%Z || (RMode r1 =? ReplayOnly)%Z).
  - destruct (select_for X r1 req) as [[[e [|]]|p] r2]; [| |discriminate].
    + destruct (EntryResponse e) as [rs|]; [|discriminate].
      injection H as <- _. eexists; reflexivity.
    + destruct (RMode r1 =? ReplayOnly)%Z; [discriminate|].
      destruct (live X req (r2, w)) as [o' [r3 w3]] eqn:Hlive.
      apply live_spec in Hlive as (Hn & _ & _ & _ & Hcases).
      destruct o' as [resp0|v|p]; [| |discriminate].
      * injection H as -> _.
        destruct Hcases as [(_ & Hno & _) | (out & in_ & fr & _ & _ & _ & _ & _ & Hresp)];
          [exfalso; eapply Hno; reflexivity|].
        eexists. apply Hresp. reflexivity.
      * injection H as -> _. destruct (Hn _ eq_refl). discriminate.
  - destruct (live X req (r1, w)) as [o' [r3 w3]] eqn:Hlive.
    apply live_spec in Hlive as (Hn & _ & _ & _ & Hcases).
    destruct o' as [resp0|v|p]; [| |discriminate].
    + injection H as -> _.
      destruct Hcases as [(_ & Hno & _) | (out & in_ & fr & _ & _ & _ & _ & _ & Hresp)];
        [exfalso; eapply Hno; reflexivity|].
      eexists. apply Hresp. reflexivity.
    + injection H as -> _. destruct (Hn _ eq_refl). discriminate.
Qed.

(** X26. The backing file is read at most once in the life of a recorder:
    after a [RoundTrip] in one of the four modes or after a [Lookup],
    however they ended, the load is done and is not tried again, so what
    [Lookup] returns no longer depends on the files. *)
Theorem file_read_at_most_once w r req method url r' w1 w2 m u :
  ((RMode r <= Passthrough)%Z /\ r' = fst (snd (RoundTrip X w r req))) \/
  r' = snd (Lookup X w r method url) ->
  once_Do_loadFromDisk X w1 r' = (None, r') /\
  Lookup X w1 r' m u = Lookup X w2 r' m u.
Proof.
  intros H.
  assert (once r' = true) as Ho.
  { destruct H as [[Hm ->] | ->]; [apply once_after_RoundTrip; exact Hm|].
    unfold Lookup.
    destruct (once_Do_loadFromDisk X w r) as [[p|] r1] eqn:Hl;
      pose proof (once_Do_fields _ _ _ _ _ Hl) as (_ & _ & _ & _ & Ho1 & _); exact Ho1. }
  split; [apply once_Do_done; exact Ho|].
  unfold Lookup. rewrite !once_Do_done by exact Ho. reflexivity.
Qed.

(** ** What is written is what is read *)

















End Further.

(** * Replaying with [OncePerCall] *)
Section Replaying.

Variable X : Externals.

Lemma set_Selector_same (r : Recorder OncePerCall) s :
  RSelector r = Some s -> set_Selector (Some s) r = r.
Proof. destruct r. simpl. intros ->. reflexivity. Qed.

(** X27. A loaded recorder in [ReplayOnly] mode with a [OncePerCall]
    selector answers a run of requests as the selector decides, call by
    call: an entry handed out gives its response, a refusal gives
    [NoRequestError] for that request. The entries and the world stay as
    they are; only the selector's marks move. *)
Theorem ReplayOnly_follows_OncePerCall w (r : Recorder OncePerCall) s reqs :
  once r = true -> RMode r = ReplayOnly -> RSelector r = Some s ->
  RoundTrips X (Selector0 := OncePerCall_Selector X) w r reqs =
    (zip_with (replay_answer X) reqs (fst (select_each X s (entries r) reqs)),
     (set_Selector (Some (snd (select_each X s (entries r) reqs))) r, w)).
Proof.
  revert r s. induction reqs as [|req rest IH]; intros r s Ho Hm Hs.
  - simpl. rewrite set_Selector_same by exact Hs. reflexivity.
  - cbn [RoundTrips select_each].
    rewrite RoundTrip_unfold, Hm. cbn [Z.ltb Z.compare Passthrough ReplayOnly Pos.compare
                                       Pos.compare_cont].
    rewrite once_Do_done by exact Ho.
    unfold replay_outcome, select_for. rewrite Hm, Hs.
    change (Select s (entries r) req) with (OncePerCall_Select X s (entries r) req).
    destruct (OncePerCall_Select X s (entries r) req) as [a s1].
    specialize (IH (set_Selector (Some s1) r) s1 Ho Hm eq_refl).
    assert (entries (set_Selector (Some s1) r) = entries r) as He by (destruct r; reflexivity).
    rewrite He in IH.
    assert (forall s2, set_Selector (Some s2) (set_Selector (Some s1) r)
                       = set_Selector (Some s2) r) as Hss by (destruct r; reflexivity).
    rewrite Hss in IH.
    destruct (select_each X s1 (entries r) rest) as [more s2].
    destruct a as [[e [|]]|p]; simpl.
    + destruct (EntryResponse e) as [rs|]; simpl; rewrite IH; reflexivity.
    + rewrite IH. reflexivity.
    + rewrite IH. reflexivity.
Qed.

End Replaying.

(** * The recorder at work

    Runs of the model on concrete recorders, with the collaborators of
    [Sample]. *)
Module Runs.

Import Sample.

Lemma fold_eq_refl s : fold_eq s s = true.
Proof.
  induction s as [|c s IH]; simpl; [reflexivity|].
  rewrite Ascii.eqb_refl, IH. reflexivity.
Qed.

Lemma fold_eq_sym a b : fold_eq a b = true -> fold_eq b a = true.
Proof.
  revert b. induction a as [|x a IH]; intros [|y b]; simpl; auto.
  intros H. apply andb_prop in H as [Hxy Hab]. apply Ascii.eqb_eq in Hxy.
  rewrite Hxy, Ascii.eqb_refl. simpl. auto.
Qed.

Lemma fold_eq_trans a b c : fold_eq a b = true -> fold_eq b c = true -> fold_eq a c = true.
Proof.
  revert b c. induction a as [|x a IH]; intros [|y b] [|z c]; simpl; auto; try discriminate.
  intros H1 H2. apply andb_prop in H1 as [Hxy Hab]. apply andb_prop in H2 as [Hyz Hbc].
  apply Ascii.eqb_eq in Hxy, Hyz. rewrite Hxy, Hyz, Ascii.eqb_refl. simpl. eauto.
Qed.

(** ** The package's tests, on the model *)

Example Split_documents :
  Split ("a" ++ separator ++ "b" ++ separator) separator = ["a"; "b"; ""]
  /\ Split "" separator = [""].
Proof. vm_compute. split; reflexivity. Qed.

(** [TestRoundTrip_Default_replay]: five identical calls, one request on
    the wire. *)
Example TestRoundTrip_Default_replay :
  let req := get "http://x/1" in
  let st := snd (RoundTrips X0 world0 (new "testdata/roundtrip-auto" [])
                   [req; req; req; req; req]) in
  length (net (snd st)) = 1%nat.
Proof. vm_compute. reflexivity. Qed.

(** [TestRoundTrip_Record]: every call goes out and is written; the file
    holds the documents, separated. *)
Example TestRoundTrip_Record :
  let req := get "http://x/1" in
  let st := snd (RoundTrips X0 world0 (set_Mode RecordAll (new "testdata/roundtrip-record" []))
                   [req; req]) in
  length (net (snd st)) = 2%nat
  /\ index (fst st) = 2%Z
  /\ files (snd st) !! "testdata/roundtrip-record.yml" =
     Some ("# request 0" ++ newline ++
           "# timestamp 2019-04-30 10:02:04 +0000 UTC" ++ newline ++
           "# roundtrip 398ms" ++ newline ++ "entry" ++
           newline ++ "---" ++ newline ++ newline ++
           "# request 1" ++ newline ++
           "# timestamp 2019-04-30 10:02:04 +0000 UTC" ++ newline ++
           "# roundtrip 398ms" ++ newline ++ "entry").
Proof. vm_compute. repeat split. Qed.

(** [TestRemoveRequestHeader]: the header is gone from the stored entry. *)
Example TestRemoveRequestHeader :
  let req := mkHttpRequest "POST" "http://x/1" {[ "Authorization" := ["abc"] ]}
               (Some (NopCloser "{}")) in
  let st := after (RoundTrip X0 world0
                     (new "testdata/req-header.yml" [RemoveRequestHeader "Authorization"]) req) in
  entries (fst st) = [mkEntry (Some (mkRequest "POST" "http://x/1" ∅ "{}"))
                              (Some (mkResponse 200 ∅ "{}"))]
  /\ net (snd st) = [req].
Proof. vm_compute. repeat split. Qed.

(** [TestFilterResponse]: a filter that writes through [e.Response] changes
    the response the caller gets. *)
Example TestFilterResponse :
  let greet : Filter :=
    update_Response (fun rs => mkResponse (StatusCode rs) (RespHeaders rs) "oh, hi there!") in
  fst (RoundTrip X0 world0 (new "testdata/req-response-filter" [greet])
         (post "http://x/1" "oh, hello there!")) =
  Returned (inr (mkHttpResponse 200 ∅ (NopCloser "oh, hi there!") 13)).
Proof. vm_compute. reflexivity. Qed.

(** ** Modes *)

(** C8: the code misses the modes below [Auto]. With [Mode = -1], a value
    outside the four, [RoundTrip] does not panic: it runs the load (the
    file name gets its extension), calls the transport, appends the entry
    and returns the response, without writing a file. *)
Theorem RoundTrip_negative_mode_no_panic :
  let r := set_Mode (-1) (new "testdata/x" []) in
  let out := RoundTrip X0 world0 r (get "http://x/1") in
  fst out = Returned (inr (mkHttpResponse 200 ∅ (NopCloser "") 0))
  /\ Filename (fst (after out)) = "testdata/x.yml"
  /\ length (net (snd (after out))) = 1%nat
  /\ length (entries (fst (after out))) = 1%nat
  /\ files (snd (after out)) = ∅.
Proof. vm_compute. repeat split. Qed.

(** ** Filters and the response *)

(** C7: the response is rebuilt from the record [in] points to, not from
    the entry. A filter that assigns [e.Response] a record of its own
    leaves the caller with the unfiltered response (body [hello]) while the
    entry that is stored, and replayed on the next call, has the filter's
    record (body [redacted]). *)
Theorem response_not_from_replaced_record :
  let r := new "testdata/x" [replace_response] in
  let req := post "http://x/1" "hello" in
  let out1 := RoundTrip X0 world0 r req in
  let out2 := RoundTrip X0 (snd (after out1)) (fst (after out1)) req in
  fst out1 = Returned (inr (mkHttpResponse 200 ∅ (NopCloser "hello") 5))
  /\ entries (fst (after out1)) =
       [mkEntry (Some (mkRequest "POST" "http://x/1" ∅ "hello"))
                (Some (mkResponse 200 ∅ "redacted"))]
  /\ fst out2 = Returned (inr (mkHttpResponse 200 ∅ (NopCloser "redacted") 8)).
Proof. vm_compute. repeat split. Qed.

(** ** Auto mode *)



(** ** ReplayOnly *)

Lemma ReplayOnly_no_entry_witness :
  let r := set_Mode ReplayOnly (new "notfound" []) in
  let req := get "https://example.com" in
  let r1 := set_once true (set_Filename "notfound.yml" r) in
  RoundTrip X0 world0 r req = (Returned (inl (NoRequestError req)), (r1, world0))
  /\ entries r1 = entries r1 /\ index r1 = index r1 /\ Filename r1 = Filename r1
  /\ (RSelector r = None -> r1 = r1)
  /\ (once r = true -> r1 = r).
Proof.
  intros r req r1.
  apply (ReplayOnly_no_entry X0 world0 r req r1 zeroEntry r1); reflexivity.
Defined.

(** C3 fails as stated. A backing file whose document has a request and no
    response loads an entry without response record; the call for that
    request finds the entry and panics, in [ReplayOnly] as in [Auto] mode,
    instead of returning a response. *)
Lemma found_entry_without_response_counterexample :
  let r := set_Mode ReplayOnly (new "testdata/x" []) in
  let req := get "http://x/1" in
  entries (snd (once_Do_loadFromDisk documents half_recorded r)) = [request_only]
  /\ fst (Lookup documents half_recorded r "GET" "http://x/1") = Returned (request_only, true)
  /\ fst (RoundTrip documents half_recorded r req) = Panicked NilDereference
  /\ fst (RoundTrip documents half_recorded (set_Mode Auto r) req) = Panicked NilDereference.
Proof. vm_compute. repeat split. Qed.

Lemma replay_response_witness :
  RoundTrip X0 world0 (loaded Auto) (get "http://x/1") =
    (Returned (inr (mkHttpResponse 200 (expandHeader X0 ∅) (NopCloser "hello") 5)),
     (loaded Auto, world0))
  /\ entries (loaded Auto) = entries (loaded Auto)
  /\ (RSelector (loaded Auto) = None -> hello ∈ entries (loaded Auto)).
Proof.
  destruct (replay_response X0 world0 (loaded Auto) (get "http://x/1") (loaded Auto) hello
              (loaded Auto)) as (Hfound & _ & Hsame & Hin).
  - left. reflexivity.
  - reflexivity.
  - reflexivity.
  - split; [|split; [exact Hsame | exact Hin]].
    apply (Hfound (mkResponse 200 ∅ "hello")). reflexivity.
Defined.

(** ** Lookup *)

(** C5 fails as stated. A backing file that ends in a separator has an
    empty last chunk, for which the deserializer gives [Entry{}] without
    error; the load appends it, and a [Lookup] for a key that no entry has
    panics on its nil request instead of returning [(Entry{}, false)]. *)
Lemma Lookup_nil_request_counterexample :
  let r := new "testdata/x" [] in
  entries (snd (once_Do_loadFromDisk documents trailing r)) = [hello; zeroEntry]
  /\ fst (Lookup documents trailing r "PUT" "http://x/1") = Panicked NilDereference.
Proof. vm_compute. repeat split. Qed.

(** A recorder not yet used, on a file of three documents of which the
    second and the third have the key, asked for in another case: the load
    runs, and the second entry is returned. *)
Lemma Lookup_default_rule_witness :
  let r := new "testdata/x" [] in
  let r1 := set_entries [put; hello; again] (set_Filename "testdata/x.yml" (set_once true r)) in
  Lookup documents session r "get" "HTTP://x/1" = (Returned (hello, true), r1)
  /\ Lookup documents session r "DELETE" "http://x/1" = (Returned (zeroEntry, false), r1)
  /\ once r1 = true.
Proof.
  intros r r1.
  assert (once_Do_loadFromDisk documents session r = (None, r1)) as Hload
    by (vm_compute; reflexivity).
  destruct (Lookup_default_rule documents session r "get" "HTTP://x/1" r1 Hload)
    as (Hfound & _).
  destruct (Lookup_default_rule documents session r "DELETE" "http://x/1" r1 Hload)
    as (_ & Hnone & _ & Honce & _).
  split; [|split; [|exact Honce]].
  - apply (Hfound [put] hello (mkRequest "GET" "http://x/1" ∅ "") [again]);
      try reflexivity.
    constructor; [|constructor].
    exists (mkRequest "PUT" "http://x/1" ∅ ""). split; reflexivity.
  - apply Hnone.
    constructor; [exists (mkRequest "PUT" "http://x/1" ∅ ""); split; reflexivity|].
    constructor; [exists (mkRequest "GET" "http://x/1" ∅ ""); split; reflexivity|].
    constructor; [exists (mkRequest "get" "HTTP://X/1" ∅ ""); split; reflexivity|].
    constructor.
Defined.

(** ** Passthrough *)

(** C4 fails as stated. With a filter that rewrites the recorded URL, the
    [Lookup] after a successful call finds nothing. Without filters, after
    two calls with the same method and URL the [Lookup] returns the entry
    of the first call, not the one the second call appended. *)
Lemma Passthrough_Lookup_counterexample :
  (let r := set_Mode Passthrough (new "testdata/passthrough" [redact_url]) in
   let req := get "http://x/1?token=abc" in
   let out := RoundTrip X0 world0 r req in
   fst out = Returned (inr (mkHttpResponse 200 ∅ (NopCloser "") 0))
   /\ fst (Lookup X0 (snd (after out)) (fst (after out)) "GET" "http://x/1?token=abc")
      = Returned (zeroEntry, false))
  /\
  (let r := set_Mode Passthrough (new "testdata/passthrough" []) in
   let out1 := RoundTrip X0 world0 r (post "http://x/1" "a") in
   let out2 := RoundTrip X0 (snd (after out1)) (fst (after out1)) (post "http://x/1" "b") in
   let first := mkEntry (Some (mkRequest "POST" "http://x/1" ∅ "a"))
                        (Some (mkResponse 200 ∅ "a")) in
   let second := mkEntry (Some (mkRequest "POST" "http://x/1" ∅ "b"))
                         (Some (mkResponse 200 ∅ "b")) in
   fst out2 = Returned (inr (mkHttpResponse 200 ∅ (NopCloser "b") 1))
   /\ entries (fst (after out2)) = [first; second]
   /\ fst (Lookup X0 (snd (after out2)) (fst (after out2)) "POST" "http://x/1")
      = Returned (first, true)
   /\ first <> second).
Proof. vm_compute. repeat split. discriminate. Qed.

Lemma Passthrough_round_trip_witness :
  let r := set_Mode Passthrough (new "testdata/passthrough" [RemoveResponseHeader "Set-Cookie"]) in
  let req := get "http://x/1" in
  let out := RoundTrip X0 world0 r req in
  files (snd (after out)) = ∅
  /\ fst (Lookup X0 (snd (after out)) (fst (after out)) "GET" "http://x/1")
     = Returned (mkEntry (Some (mkRequest "GET" "http://x/1" ∅ ""))
                         (Some (mkResponse 200 ∅ "")), true).
Proof.
  intros r req out.
  destruct (Passthrough_round_trip X0 world0 r req (fst out) (fst (after out)) (snd (after out)))
    as (_ & Hfiles & Hresp).
  - reflexivity.
  - vm_compute. reflexivity.
  - split; [exact Hfiles|].
    destruct (Hresp (mkHttpResponse 200 ∅ (NopCloser "") 0)) as (e & He & Hl).
    + vm_compute. reflexivity.
    + destruct Hl as (_ & _ & Hl).
      * exact fold_eq_refl.
      * constructor; [apply RemoveResponseHeader_keeps | constructor].
      * change (ReqMethod req) with "GET" in Hl.
        change (ReqURL req) with "http://x/1" in Hl.
        rewrite Hl by constructor.
        apply app_inj_tail in He as [_ <-]. reflexivity.
Defined.

(** ** Complete entries *)

(** C9 fails as stated. A filter that sets [e.Response] to nil leaves an
    entry without response record in the list; the next call for the same
    request finds it and panics on the nil pointer. *)
Lemma entry_without_response_counterexample :
  let r := new "testdata/x" [drop_response] in
  let req := get "http://x/1" in
  let out1 := RoundTrip X0 world0 r req in
  let out2 := RoundTrip X0 (snd (after out1)) (fst (after out1)) req in
  fst out1 = Returned (inr (mkHttpResponse 200 ∅ (NopCloser "") 0))
  /\ entries (fst (after out1)) = [mkEntry (Some (mkRequest "GET" "http://x/1" ∅ "")) None]
  /\ fst out2 = Panicked NilDereference.
Proof. vm_compute. repeat split. Qed.

Lemma entries_stay_complete_witness :
  let r := new "testdata/x" [RemoveRequestHeader "Authorization"] in
  let r' := fst (snd (RoundTrip X0 recorded r (get "http://x/2"))) in
  Forall complete (entries (snd (once_Do_loadFromDisk X0 recorded r)))
  /\ (forall method url, Forall complete (entries (snd (Lookup X0 recorded r method url))))
  /\ Forall complete (entries r')
  /\ length (entries r') = 2%nat.
Proof.
  intros r r'.
  destruct (entries_stay_complete X0 recorded r (get "http://x/2")) as (_ & Hall).
  destruct Hall as (Hload & Hlookup & Hcall).
  - constructor.
  - intros _ _ existing Hread.
    assert (ReadFile recorded (backing_file r) = Some hello_doc) as Hfile by reflexivity.
    rewrite Hfile in Hread. injection Hread as <-.
    assert (Split hello_doc separator = [hello_doc]) as -> by (vm_compute; reflexivity).
    constructor; [|constructor].
    intros e He.
    assert (Unmarshal X0 hello_doc = inr hello) as Hdoc by (vm_compute; reflexivity).
    rewrite Hdoc in He. injection He as <-.
    split; simpl; eauto.
  - split; [exact Hload|]. split; [exact Hlookup|]. split; [|reflexivity].
    apply Hcall. constructor; [apply RemoveRequestHeader_keeps | constructor].
Defined.

(** ** A chunk that does not unmarshal *)

(** C10 fails as stated. The load of [broken] panics at the second chunk,
    but the entry of the first chunk is then in the list and the guard is
    spent: a later [Lookup], or a later [RoundTrip], on that recorder is
    answered from the one-entry list. *)
Lemma partial_list_after_bad_chunk_counterexample :
  let r := set_Mode ReplayOnly (new "testdata/x" []) in
  let out1 := Lookup X0 broken r "GET" "http://x/1" in
  let out2 := Lookup X0 broken (snd out1) "GET" "http://x/1" in
  let out3 := RoundTrip X0 broken (snd out1) (get "http://x/1") in
  fst out1 = Panicked (PanicMsg
    "unmarshal session 1 from testdata/x.yml: yaml: cannot unmarshal")
  /\ entries (snd out1) = [hello]
  /\ fst out2 = Returned (hello, true)
  /\ fst out3 = Returned (inr (mkHttpResponse 200 ∅ (NopCloser "hello") 5)).
Proof. vm_compute. repeat split. Qed.

Lemma load_stops_at_first_bad_chunk_witness :
  let r := set_Mode ReplayOnly (new "testdata/x" []) in
  let p := PanicMsg ("unmarshal session " ++ pretty 1%nat ++ " from "
                     ++ backing_file r ++ ": " ++ "yaml: cannot unmarshal") in
  let r1 := set_entries (entries r ++ [hello])
              (set_Filename (backing_file r) (set_once true r)) in
  once_Do_loadFromDisk X0 broken r = (Some p, r1)
  /\ (forall req, (RMode r <= Passthrough)%Z -> RoundTrip X0 broken r req = (Panicked p, (r1, broken)))
  /\ (forall method url, Lookup X0 broken r method url = (Panicked p, r1))
  /\ (forall w2, once_Do_loadFromDisk X0 w2 r1 = (None, r1)).
Proof.
  intros r.
  apply (load_stops_at_first_bad_chunk X0 broken r (hello_doc ++ separator ++ bad_doc)
           [hello_doc] [hello] bad_doc "yaml: cannot unmarshal" []).
  - reflexivity.
  - discriminate.
  - vm_compute. reflexivity.
  - vm_compute. reflexivity.
  - constructor; [vm_compute; reflexivity | constructor].
  - vm_compute. reflexivity.
Defined.

(** ** The consume-once selector *)

(** C6 fails as stated. With an entry that has no request record in the
    list (as the load leaves for an empty chunk), the first call for a key
    that a later entry has panics on the nil pointer instead of getting that
    entry. *)
Lemma Select_nil_request_counterexample :
  fst (select_each X0 (mkOncePerCall None) (zeroEntry :: test_entries)
         [test_call "GET" "http://foo.com/bar"])
  = [Panicked NilDereference].
Proof. vm_compute. reflexivity. Qed.

Lemma OncePerCall_consumes_once_witness :
  answers_for X0 "GET" "http://foo.com/bar" test_calls_folded
    (fst (select_each X0 (mkOncePerCall None) test_entries test_calls_folded)) =
  [ Returned (test_entry "GET" "http://foo.com/bar" "1", true);
    Returned (test_entry "GET" "http://foo.com/bar" "2", true);
    Returned (test_entry "GET" "http://foo.com/bar" "3", true);
    Returned (zeroEntry, false);
    Returned (zeroEntry, false) ].
Proof.
  rewrite (OncePerCall_consumes_once X0 "GET" "http://foo.com/bar" test_entries
             test_calls_folded).
  - reflexivity.
  - exact fold_eq_sym.
  - exact fold_eq_trans.
  - repeat constructor; simpl; eauto.
Defined.

End Runs.

(** * Further runs *)
Module FurtherRuns.

Import Sample.

Lemma ReplayOnly_leaves_world_witness :
  let r := set_Mode ReplayOnly (new "testdata/x" []) in
  let out := RoundTrip X0 recorded r (get "http://x/2") in
  snd (snd out) = recorded /\
  entries (fst (snd out)) = entries (snd (once_Do_loadFromDisk X0 recorded r)) /\
  index (fst (snd out)) = index r.
Proof.
  intros r out.
  apply (ReplayOnly_leaves_world X0 recorded r (get "http://x/2")). reflexivity.
Defined.

Lemma Record_always_goes_live_witness :
  let out := RoundTrip X0 recorded rec0 (get "http://x/1") in
  RSelector (fst (snd out)) = RSelector rec0 /\
  (forall resp, fst out = Returned (inr resp) ->
     exists b fr,
       net (snd (snd out)) = (net recorded ++ [outgoing (get "http://x/1") b])%list /\
       entries (fst (snd out)) =
         (entries (snd (once_Do_loadFromDisk X0 recorded rec0)) ++ [entry_of fr])%list /\
       resp = make_response X0 (in_rec fr)).
Proof.
  intros out.
  apply (Record_always_goes_live X0 recorded rec0 (get "http://x/1")
           (fst out) (fst (snd out)) (snd (snd out))).
  - reflexivity.
  - vm_compute. reflexivity.
Defined.

Lemma transport_error_not_recorded_witness :
  let r := set_Transport (Some refuse) rec0 in
  let r2 := snd (once_Do_loadFromDisk X0 world0 r) in
  let req := post "http://x/1" "ping" in
  exists r',
    RoundTrip X0 world0 r req =
      (Returned (inl (ForeignError "connection refused")),
       (r', mkWorld (files world0) (net world0 ++ [outgoing req "ping"]) (fault world0)))
    /\ entries r' = entries r2 /\ index r' = index r2.
Proof.
  intros r r2 req.
  apply (transport_error_not_recorded X0 world0 r req r2 "ping"
           (ForeignError "connection refused")).
  - live_by_mode.
  - split; reflexivity.
  - apply map_Forall_empty.
  - reflexivity.
Defined.

Lemma Passthrough_records_exchange_witness :
  let r := set_Mode Passthrough (new "testdata/x" []) in
  let req := post "http://x/1" "ping" in
  let fr := fresh_frame req "ping" (echoed "ping") in
  RoundTrip X0 recorded r req =
    (Returned (inr (make_response X0 (in_rec fr))),
     (set_entries (entries r ++ [entry_of fr]) (with_transport X0 (set_once true r)),
      mkWorld (files recorded) (net recorded ++ [outgoing req "ping"]) (fault recorded)))
  /\ (Filters r = [] ->
      entry_of fr =
        mkEntry (Some (recorded_request req "ping")) (Some (recorded_response (echoed "ping")))).
Proof.
  intros r req fr.
  apply (Passthrough_records_exchange X0 recorded r req "ping" (echoed "ping") fr).
  - reflexivity.
  - repeat split; try reflexivity; apply map_Forall_empty.
  - reflexivity.
Defined.

Lemma first_write_replaces_file_witness :
  let r2 := snd (once_Do_loadFromDisk X0 world0 rec0) in
  let req := get "http://x/1" in
  let fr := fresh_frame req "" (echoed "") in
  exists r',
    RoundTrip X0 world0 rec0 req =
      (Returned (inr (make_response X0 (in_rec fr))),
       (r', mkWorld (<[Filename r2 := document_header X0 (length (net world0)) 0 ++ "entry"]>
                       (files world0))
                    (net world0 ++ [outgoing req ""]) (fault world0)))
    /\ index r' = 1%Z
    /\ entries r' = (entries r2 ++ [entry_of fr])%list.
Proof.
  intros r2 req fr.
  apply (first_write_replaces_file X0 world0 rec0 req r2 "" (echoed "") fr "entry").
  - live_by_mode.
  - discriminate.
  - reflexivity.
  - repeat split; try reflexivity; apply map_Forall_empty.
  - reflexivity.
  - reflexivity.
  - nothing_fails.
Defined.

Lemma later_write_appends_witness :
  let r := fst rec1 in
  let w := snd rec1 in
  let req := post "http://x/2" "ping" in
  let fr := fresh_frame req "ping" (echoed "ping") in
  let old := document_header X0 0 0 ++ "entry" in
  exists r',
    RoundTrip X0 w r req =
      (Returned (inr (make_response X0 (in_rec fr))),
       (r', mkWorld (<[Filename r :=
                         old ++ document_break
                         ++ document_header X0 (length (net w)) (index r) ++ "entry"]> (files w))
                    (net w ++ [outgoing req "ping"]) (fault w)))
    /\ index r' = (index r + 1)%Z
    /\ entries r' = (entries r ++ [entry_of fr])%list.
Proof.
  intros r w req fr old.
  apply (later_write_appends X0 w r req r "ping" (echoed "ping") fr "entry" old).
  - live_by_mode.
  - discriminate.
  - split; reflexivity.
  - vm_compute. reflexivity.
  - repeat split; try reflexivity; apply map_Forall_empty.
  - reflexivity.
  - reflexivity.
  - nothing_fails.
Defined.

Lemma write_failure_keeps_entry_witness :
  let r2 := snd (once_Do_loadFromDisk X0 readonly rec0) in
  let req := get "http://x/1" in
  let fr := fresh_frame req "" (echoed "") in
  let out := RoundTrip X0 readonly rec0 req in
  entries (fst (snd out)) = (entries r2 ++ [entry_of fr])%list
  /\ net (snd (snd out)) = (net readonly ++ [outgoing req ""])%list
  /\ fst out = Returned (inl (ForeignError "permission denied"))
  /\ files (snd (snd out)) = files readonly /\ index (fst (snd out)) = index r2.
Proof.
  intros r2 req fr out.
  destruct (write_failure_keeps_entry X0 readonly rec0 req r2 "" (echoed "") fr)
    as (Hentries & Hnet & Hfail).
  - live_by_mode.
  - repeat split; try reflexivity; apply map_Forall_empty.
  - reflexivity.
  - split; [exact Hentries | split; [exact Hnet |]].
    apply (Hfail "permission denied"); [discriminate | reflexivity].
Defined.

Lemma load_appends_every_chunk_witness :
  let r := new "testdata/x" [] in
  once_Do_loadFromDisk X0 twice r =
    (None, set_entries (entries r ++ [hello; hello])
             (set_Filename (backing_file r) (set_once true r))).
Proof.
  intros r.
  apply (load_appends_every_chunk X0 twice r (hello_doc ++ separator ++ hello_doc)
           [hello; hello]).
  - reflexivity.
  - discriminate.
  - vm_compute. reflexivity.
  - assert (Hs : Split (hello_doc ++ separator ++ hello_doc) separator = [hello_doc; hello_doc])
      by (vm_compute; reflexivity).
    rewrite Hs.
    constructor; [vm_compute; reflexivity |].
    constructor; [vm_compute; reflexivity | constructor].
Defined.

Lemma unreadable_file_is_empty_witness :
  let r := set_Mode ReplayOnly (new "testdata/x" []) in
  let req := get "http://x/1" in
  once_Do_loadFromDisk X0 world0 r = (None, set_Filename (backing_file r) (set_once true r))
  /\ RoundTrip X0 world0 r req =
       (Returned (inl (NoRequestError req)),
        (set_Filename (backing_file r) (set_once true r), world0)).
Proof.
  intros r req.
  apply (unreadable_file_is_empty X0 world0 r req); reflexivity.
Defined.

Lemma backing_file_ends_in_yml_witness :
  let r := new "testdata/x" [] in
  HasSuffix (backing_file r) ".yml" = true
  /\ once_Do_loadFromDisk X0 decoy r = once_Do_loadFromDisk X0 recorded r
  /\ Filename (snd (once_Do_loadFromDisk X0 recorded r)) = "testdata/x.yml"
  /\ backing_file (snd (once_Do_loadFromDisk X0 recorded r)) = "testdata/x.yml".
Proof.
  intros r.
  destruct (backing_file_ends_in_yml X0 recorded r) as (Hyml & _ & Hsame & Hload).
  split; [exact Hyml|]. split.
  - apply Hsame. vm_compute. reflexivity.
  - apply Hload; [reflexivity | discriminate].
Defined.


Lemma provided_filters_strip_headers_witness :
  let r := set_Transport (Some cookies)
             (set_Mode RecordAll (new "testdata/x" (map provided_filter redactions))) in
  let r2 := snd (once_Do_loadFromDisk X0 world0 r) in
  let req := with_credentials in
  exists rq rs,
    entries (fst (snd (RoundTrip X0 world0 r req))) =
      (entries r2 ++ [mkEntry (Some rq) (Some rs)])%list
    /\ Method rq = ReqMethod req /\ URL rq = ReqURL req /\ Body rq = ""
    /\ StatusCode rs = RespStatusCode cookie_response
    /\ RespBody rs = content (HttpBody cookie_response)
    /\ (forall k, Headers rq !! k =
                  if decide (k ∈ request_names redactions) then None
                  else ReqHeader req !! k ≫= head)
    /\ (forall k, RespHeaders rs !! k =
                  if decide (k ∈ response_names redactions) then None
                  else Header cookie_response !! k ≫= head).
Proof.
  intros r r2 req.
  apply (provided_filters_strip_headers X0 world0 r req r2 "" cookie_response redactions).
  - live_by_mode.
  - split; [reflexivity |].
    split; [apply map_Forall_insert_2; [discriminate | apply map_Forall_singleton; discriminate] |].
    split; [reflexivity |].
    split; [apply map_Forall_insert_2; [discriminate | apply map_Forall_singleton; discriminate] |].
    split; reflexivity.
  - reflexivity.
Defined.

Lemma provided_filters_order_free_witness :
  let fs' := [Response_header "Set-Cookie"; Request_header "Authorization";
              Response_header "Set-Cookie"] in
  let fr := fresh_frame with_credentials "" cookie_response in
  apply_filters (map provided_filter redactions) fr =
  apply_filters (map provided_filter fs') fr.
Proof.
  intros fs' fr.
  apply (provided_filters_order_free X0 redactions fs').
  intros f. unfold redactions, fs'. rewrite !elem_of_cons, elem_of_nil. tauto.
Defined.

Lemma flatten_expand_header_witness :
  let h : gmap string string := {[ "Content-Type" := "text/plain" ]} in
  flattenHeader (expandHeader X0 h) = Returned h
  /\ forall k, expandHeader X0 h !! k = (fun v => [v]) <$> h !! k.
Proof.
  intros h. apply (flatten_expand_header X0 h).
  - reflexivity.
  - apply map_Forall_singleton. vm_compute. reflexivity.
Defined.

Lemma Lookup_sound_witness :
  loaded Auto = snd (once_Do_loadFromDisk X0 world0 (loaded Auto)) /\
  hello ∈ entries (loaded Auto) /\ has_key X0 "get" "HTTP://X/1" hello = true.
Proof.
  apply (Lookup_sound X0 world0 (loaded Auto) "get" "HTTP://X/1" hello true (loaded Auto)).
  vm_compute. reflexivity.
Defined.

Lemma Lookup_case_insensitive_witness :
  Lookup X0 world0 (loaded Auto) "GET" "http://x/1" =
  Lookup X0 world0 (loaded Auto) "get" "HTTP://X/1".
Proof.
  apply (Lookup_case_insensitive X0 world0 (loaded Auto) "GET" "http://x/1" "get" "HTTP://X/1").
  - exact Runs.fold_eq_sym.
  - exact Runs.fold_eq_trans.
  - reflexivity.
  - reflexivity.
Defined.

Lemma OncePerCall_Select_sound_witness :
  let s := mkOncePerCall (Some {[ 0%nat := true ]}) in
  let req := test_call "GET" "http://foo.com/bar" in
  let s' := snd (OncePerCall_Select X0 s test_entries req) in
  exists p, test_entries !! p = Some (test_entry "GET" "http://foo.com/bar" "2") /\
            has_key X0 (ReqMethod req) (ReqURL req)
              (test_entry "GET" "http://foo.com/bar" "2") = true /\
            default false (used_map s !! p) = false /\
            used_map s' = <[p := true]> (used_map s).
Proof.
  intros s req s'.
  apply (OncePerCall_Select_sound X0 s test_entries req
           (Returned (test_entry "GET" "http://foo.com/bar" "2", true)) s').
  vm_compute. reflexivity.
Defined.

Lemma request_body_error_sends_nothing_witness :
  let r2 := snd (once_Do_loadFromDisk X0 world0 rec0) in
  RoundTrip X0 world0 rec0 upload =
    (Returned (inl (ForeignError "unexpected EOF")), (with_transport X0 r2, world0))
  /\ entries (with_transport X0 r2) = entries r2.
Proof.
  intros r2.
  apply (request_body_error_sends_nothing X0 world0 rec0 upload r2 failing_body
           "unexpected EOF").
  - live_by_mode.
  - reflexivity.
  - reflexivity.
Defined.

Lemma response_body_error_not_recorded_witness :
  let r := set_Transport (Some truncated) rec0 in
  let r2 := snd (once_Do_loadFromDisk X0 world0 r) in
  let req := get "http://x/1" in
  RoundTrip X0 world0 r req =
    (Returned (inl (ForeignError "unexpected EOF")),
     (with_transport X0 r2,
      mkWorld (files world0) (net world0 ++ [outgoing req ""]) (fault world0)))
  /\ entries (with_transport X0 r2) = entries r2.
Proof.
  intros r r2 req.
  apply (response_body_error_not_recorded X0 world0 r req r2 "" truncated_response
           "unexpected EOF").
  - live_by_mode.
  - reflexivity.
  - apply map_Forall_empty.
  - reflexivity.
  - apply map_Forall_empty.
  - left. reflexivity.
Defined.

Lemma marshal_failure_leaves_comments_witness :
  let r2 := snd (once_Do_loadFromDisk unserializable recorded rec0) in
  let req := get "http://x/2" in
  let fr := fresh_frame req "" (echoed "") in
  exists r',
    RoundTrip unserializable recorded rec0 req =
      (Returned (inl (ForeignError "yaml: cannot marshal")),
       (r', mkWorld (<[Filename r2 := document_header unserializable (length (net recorded)) 0]>
                       (files recorded))
                    (net recorded ++ [outgoing req ""]) (fault recorded)))
    /\ index r' = 1%Z
    /\ entries r' = (entries r2 ++ [entry_of fr])%list.
Proof.
  intros r2 req fr.
  apply (marshal_failure_leaves_comments unserializable recorded rec0 req r2 "" (echoed "") fr
           "yaml: cannot marshal").
  - live_by_mode.
  - discriminate.
  - reflexivity.
  - repeat split; try reflexivity; apply map_Forall_empty.
  - reflexivity.
  - reflexivity.
  - nothing_fails.
Defined.

Lemma later_write_needs_file_witness :
  let r := fst rec1 in
  let req := post "http://x/2" "ping" in
  let fr := fresh_frame req "ping" (echoed "ping") in
  exists err r',
    RoundTrip X0 world0 r req =
      (Returned (inl err),
       (r', mkWorld (files world0) (net world0 ++ [outgoing req "ping"]) (fault world0)))
    /\ index r' = index r
    /\ entries r' = (entries r ++ [entry_of fr])%list.
Proof.
  intros r req fr.
  apply (later_write_needs_file X0 world0 r req r "ping" (echoed "ping") fr).
  - live_by_mode.
  - discriminate.
  - reflexivity.
  - reflexivity.
  - repeat split; try reflexivity; apply map_Forall_empty.
  - reflexivity.
  - reflexivity.
Defined.

Lemma every_response_is_rebuilt_witness :
  let resp := mkHttpResponse 200 (expandHeader X0 ∅) (NopCloser "ping") 4 in
  (exists rs, resp = make_response X0 rs) /\
  ContentLength resp = Z.of_nat (String.length (content (HttpBody resp))) /\
  read_err (HttpBody resp) = None /\ close_err (HttpBody resp) = None.
Proof.
  intros resp.
  apply (every_response_is_rebuilt X0 world0 (set_Mode Passthrough rec0)
           (post "http://x/1" "ping") resp
           (snd (RoundTrip X0 world0 (set_Mode Passthrough rec0) (post "http://x/1" "ping")))).
  vm_compute. reflexivity.
Defined.

Lemma file_read_at_most_once_witness :
  let r' := fst (snd (RoundTrip X0 broken (new "testdata/x" []) (get "http://x/1"))) in
  once_Do_loadFromDisk X0 recorded r' = (None, r') /\
  Lookup X0 recorded r' "GET" "http://x/1" = Lookup X0 world0 r' "GET" "http://x/1".
Proof.
  intros r'.
  apply (file_read_at_most_once X0 broken (new "testdata/x" []) (get "http://x/1")
           "GET" "http://x/1" r' recorded world0 "GET" "http://x/1").
  left. split; [|reflexivity]. vm_compute. intros H. discriminate H.
Defined.

Lemma ReplayOnly_follows_OncePerCall_witness :
  RoundTrips X0 world0 replaying test_calls =
    (zip_with (replay_answer X0) test_calls
       (fst (select_each X0 (mkOncePerCall None) (entries replaying) test_calls)),
     (set_Selector
        (Some (snd (select_each X0 (mkOncePerCall None) (entries replaying) test_calls)))
        replaying, world0)).
Proof.
  apply (ReplayOnly_follows_OncePerCall X0 world0 replaying (mkOncePerCall None) test_calls);
    reflexivity.
Defined.


End FurtherRuns.
